(** * unimod-mapper: the record store, the multi-key index and the lookups

    A shallow embedding of [unimod_mapper/unimod_mapper.py] (class
    [UnimodMapper]) and the properties of its index and lookup methods.

    Python values are modelled as follows.
    - [int] is [Z], a list position is [nat], [float] is the kernel's
      binary64 [float] with its IEEE operations;
    - [str] is [string]; Python compares strings by code point, which on
      the UTF-8 bytes of [string] is the byte-wise order [String.compare];
    - the composition dict of a record ([element]) is a [gmap string Z];
    - the index ([mapper]) is a dict whose keys are strings and floats
      mixed.  Python finds a key with [==], which on floats is IEEE
      equality (0.0 == -0.0, nan != nan) and not structural equality, so
      the index is an insertion-ordered association list searched with
      [key_eqb];
    - an exception is a value of [exn]; a method that can raise returns a
      [result]; a method of the object is a function of the state (the
      object and the files) into a [result] of a value and a state;
    - an XML file is the list of the start and end events that
      [ET.iterparse] yields for it, with the attributes the parser reads;
    - [round(x, ndigits)] is CPython's: the exact value of the float is
      rounded to a decimal with [ndigits] places, ties to even, and the
      decimal is read back as the nearest float.

    Keyword arguments are passed explicitly ([decimal_places] has the
    default 2 in the source).  The constructor takes what its download
    returns as an argument. *)

From Stdlib Require Import ZArith Floats.
From stdpp Require Import gmap strings list sorting pretty.

Set Default Proof Using "Type".
#[local] Set Warnings "-inexact-float".

(** ** Exceptions and results *)

Inductive exn : Set :=
  | KeyError            (* d[k] with k missing *)
  | IndexError          (* l[i] out of range *)
  | ValueError          (* min([]) *)
  | TypeError           (* min(None) *)
  | OverflowError       (* round(x, n) beyond the largest float *)
  | AssertionError      (* a failed assert *)
  | UnboundLocalError   (* a local read before its first assignment *)
  | SystemExit          (* sys.exit(1) *)
  | ExpatError          (* minidom.parse on text that is not well-formed *)
  | MissingDelta.       (* no exception of the program: a dict without
                           [mono_mass], which the store of this development
                           cannot hold; see [to_data] *)

Inductive result (A : Type) : Type :=
  | Ok (a : A)
  | Raise (e : exn).
Arguments Ok {A} a.
Arguments Raise {A} e.

Global Instance result_ret : MRet result := λ A a, Ok a.
Global Instance result_bind : MBind result := λ A B f m,
  match m with
  | Ok a => f a
  | Raise e => Raise e
  end.
Global Instance result_fmap : FMap result := λ A B f m,
  match m with
  | Ok a => Ok (f a)
  | Raise e => Raise e
  end.

(** ** Records of the store *)

(** One entry of [data_list], the dict [tmp] that [_parseXML] builds, with
    its keys in the order in which the parser inserts them: [unimodID],
    [unimodname], [element], [specificity], then [mono_mass]. *)
Record unimod_data_dict : Type := mk_data {
  unimodID : string;
  unimodname : string;
  element : gmap string Z;
  specificity : list (string * string);
  mono_mass : float
}.

(** ** Keys of the index *)

Inductive key : Type :=
  | KStr (s : string)
  | KFloat (f : float).

(** Python's [==] between two keys: a [str] never equals a [float]. *)
Definition key_eqb (a b : key) : bool :=
  match a, b with
  | KStr s, KStr t => String.eqb s t
  | KFloat x, KFloat y => PrimFloat.eqb x y
  | _, _ => false
  end.

(** The index: key to list of positions, in insertion order of the keys. *)
Definition dict : Type := list (key * list nat).

(** [mapper.get(k, None)] *)
Fixpoint dict_get (k : key) (mapper : dict) : option (list nat) :=
  match mapper with
  | [] => None
  | (k', l) :: rest => if key_eqb k' k then Some l else dict_get k rest
  end.

(** [mapper[k]], which raises KeyError on a missing key *)
Definition dict_getitem (k : key) (mapper : dict) : result (list nat) :=
  match dict_get k mapper with
  | Some l => Ok l
  | None => Raise KeyError
  end.

Definition dict_keys (mapper : dict) : list key := mapper.*1.

(** The registration step of [_initialize_mapper]:
<<
    if value not in mapper.keys():
        mapper[value] = []
    mapper[value].append(index)
>>
    The three statements use the same object [value], so the entry the
    third one appends to is the one the first found or the second made. *)
Fixpoint register (value : key) (index : nat) (mapper : dict) : dict :=
  match mapper with
  | [] => [(value, [index])]
  | (k, l) :: rest =>
      if key_eqb k value then (k, l ++ [index]) :: rest
      else (k, l) :: register value index rest
  end.

(** ** The canonical composition string *)

Definition MAJORS : list string := ["C"; "H"].

(** ["{0}({1})".format(symbol, number)] *)
Definition format_element (symbol : string) (number : Z) : string :=
  symbol +:+ "(" +:+ pretty number +:+ ")".

(** The order of Python on the tuples [(symbol, number)]. *)
Definition item_le (a b : string * Z) : Prop :=
  match String.compare a.1 b.1 with
  | Lt => True
  | Eq => (a.2 ≤ b.2)%Z
  | Gt => False
  end.

Global Instance item_le_dec a b : Decision (item_le a b).
Proof. unfold item_le. destruct (String.compare a.1 b.1); apply _. Defined.

(** [sorted(d.items())] *)
Definition sorted_items (d : gmap string Z) : list (string * Z) :=
  merge_sort item_le (map_to_list d).

Definition hill_notation (d : gmap string Z) : string :=
  let hill_notation :=
    foldl (λ hill major,
             match d !! major with
             | Some number => hill +:+ format_element major number
             | None => hill
             end) "" MAJORS in
  foldl (λ hill '(symbol, number),
           if bool_decide (symbol ∈ MAJORS) then hill
           else hill +:+ format_element symbol number)
        hill_notation (sorted_items d).

(** ** Building the index *)

(** [enumerate(l)] *)
Definition enumerate {A} (l : list A) : list (nat * A) := imap pair l.

(** The body of the outer loop of [_initialize_mapper]: the items of one
    record in their insertion order; [specificity] is passed over. *)
Definition register_record (index : nat) (d : unimod_data_dict)
    (mapper : dict) : dict :=
  let mapper := register (KStr (unimodID d)) index mapper in
  let mapper := register (KStr (unimodname d)) index mapper in
  let mapper := register (KStr (hill_notation (element d))) index mapper in
  register (KFloat (mono_mass d)) index mapper.

Definition _initialize_mapper (data_list : list unimod_data_dict) : dict :=
  foldl (λ mapper '(index, d), register_record index d mapper)
        [] (enumerate data_list).


(** ** Loops *)

(** A [for] loop over a list that threads the variables the body updates. *)
Fixpoint for_ {F : Type → Type} `{!MBind F, !MRet F} {A S : Type}
    (l : list A) (body : S → A → F S) (acc : S) : F S :=
  match l with
  | [] => mret acc
  | x :: l => acc ← body acc x; for_ l body acc
  end.

(** ** XML sources and [_parseXML] *)

(** What [ET.iterparse(..., events=("start", "end"))] yields for a file,
    reduced to what the parser looks at: which of the four tag endings the
    tag has ([}mod], [}delta], [}element], [}specificity]; every other tag
    is "other"), and the attributes it reads.  [int(...)] and [float(...)]
    are applied already: [number] and [mono_mass] are taken to be numerals,
    and [title], [site] and [classification] to be present. *)
Inductive xml_event : Type :=
  | start_mod (record_id : option string) (title : string)
  | start_delta (mono_mass : float)
  | start_element (symbol : string) (number : Z)
  | start_specificity (site classification : string)
  | start_other
  | end_mod
  | end_delta
  | end_other.

(** The dict [tmp] while it is being filled; [mono_mass] is set by the
    start of a delta. *)
Record tmp_dict : Type := mk_tmp {
  tmp_unimodID : string;
  tmp_unimodname : string;
  tmp_element : gmap string Z;
  tmp_specificity : list (string * string);
  tmp_mono_mass : option float
}.

(** The locals of [_parseXML].  [data_list.append(tmp)] appends the dict
    itself, which later events can still change, so the dicts live in
    [objects] and [tmp] and [data_list] hold positions in it. *)
Record parser : Type := mk_parser {
  objects : list tmp_dict;
  tmp : option nat;
  data_list_refs : list nat
}.

Definition new_parser : parser := mk_parser [] None [].

(** An update of the dict [tmp] is bound to. *)
Definition update_tmp (f : tmp_dict → tmp_dict) (p : parser) : result parser :=
  match tmp p with
  | None => Raise UnboundLocalError
  | Some r => Ok (mk_parser (alter f r (objects p)) (tmp p) (data_list_refs p))
  end.

Definition set_mono_mass (m : float) (t : tmp_dict) : tmp_dict :=
  mk_tmp (tmp_unimodID t) (tmp_unimodname t) (tmp_element t)
         (tmp_specificity t) (Some m).

Definition set_element (symbol : string) (number : Z) (t : tmp_dict) : tmp_dict :=
  mk_tmp (tmp_unimodID t) (tmp_unimodname t) (<[symbol := number]> (tmp_element t))
         (tmp_specificity t) (tmp_mono_mass t).

Definition append_specificity (s : string * string) (t : tmp_dict) : tmp_dict :=
  mk_tmp (tmp_unimodID t) (tmp_unimodname t) (tmp_element t)
         (tmp_specificity t ++ [s]) (tmp_mono_mass t).

(** The body of the loop over the events; the second component is
    [collect_element]. *)
Definition parse_event (st : parser * bool) (ev : xml_event)
    : result (parser * bool) :=
  let '(p, collect_element) := st in
  match ev with
  | start_mod record_id title =>
      let unimodid := default "" record_id in
      let t := mk_tmp unimodid title ∅ [] None in
      Ok (mk_parser (objects p ++ [t]) (Some (length (objects p)))
                    (data_list_refs p), collect_element)
  | start_delta m =>
      p ← update_tmp (set_mono_mass m) p; Ok (p, true)
  | start_element symbol number =>
      if collect_element then
        if bool_decide (number ≠ 0%Z) then
          p ← update_tmp (set_element symbol number) p; Ok (p, collect_element)
        else Ok (p, collect_element)
      else Ok (p, collect_element)
  | start_specificity amino_acid classification =>
      if bool_decide (classification ≠ "Artefact") then
        p ← update_tmp (append_specificity (amino_acid, classification)) p;
        Ok (p, collect_element)
      else Ok (p, collect_element)
  | start_other => Ok (p, collect_element)
  | end_delta => Ok (p, false)
  | end_mod =>
      match tmp p with
      | None => Raise UnboundLocalError
      | Some r => Ok (mk_parser (objects p) (tmp p) (data_list_refs p ++ [r]),
                      collect_element)
      end
  | end_other => Ok (p, collect_element)
  end.

(** A path of [pathlib]: absolute or relative, and its components. *)
Record Path : Type := mk_path {
  is_absolute : bool;
  parts : list string
}.

(** [p.name] *)
Definition path_name (p : Path) : string := default "" (last (parts p)).

(** [a / b] *)
Definition truediv (a b : Path) : Path :=
  if is_absolute b then b
  else mk_path (is_absolute a) (parts a ++ parts b).

(** The surroundings of the process: the working directory, the directory
    of the module ([Path(__file__).parent]) and the XML files on disk, each
    with the events its text parses into. *)
Record os : Type := mk_os {
  cwd : list string;
  here : Path;
  files : gmap (list string) (list xml_event)
}.

Definition resolve (o : os) (p : Path) : list string :=
  if is_absolute p then parts p else cwd o ++ parts p.

(** [p.exists()] and the events of the file *)
Definition read_file (o : os) (p : Path) : option (list xml_event) :=
  files o !! resolve o p.

(** The body of the loop of [_parseXML] over the files. *)
Definition parse_file (o : os) (p : parser) (xml_file : Path) : result parser :=
  match read_file o xml_file with
  | Some events =>
      st ← for_ events parse_event (p, false); Ok st.1
  | None =>
      if String.eqb (path_name xml_file) "unimod.xml" then Raise SystemExit
      else if String.eqb (path_name xml_file) "usermod.xml" then Ok p
      else Raise SystemExit
  end.

(** The record a finished dict is.  A mod without a delta leaves a dict
    without [mono_mass]; the program keeps it in [data_list] all the same,
    and only reading its mass raises KeyError.  A [unimod_data_dict] has a
    mass, so such a dict is no record here: [to_data] gives [MissingDelta]
    for it, which stands for no exception of the program, and a statement
    about [_parseXML] holds of the program only where [_parseXML] does not
    give [MissingDelta], that is, where every mod read has a delta. *)
Definition to_data (t : tmp_dict) : result unimod_data_dict :=
  match tmp_mono_mass t with
  | Some m => Ok (mk_data (tmp_unimodID t) (tmp_unimodname t) (tmp_element t)
                          (tmp_specificity t) m)
  | None => Raise MissingDelta
  end.

Definition deref (p : parser) (r : nat) : result unimod_data_dict :=
  match objects p !! r with
  | Some t => to_data t
  | None => Raise IndexError
  end.

Definition parse_files (o : os) (xml_file_list : list Path) : result parser :=
  for_ xml_file_list (parse_file o) new_parser.

Definition _parseXML (o : os) (xml_file_list : list Path)
    : result (list unimod_data_dict) :=
  p ← parse_files o xml_file_list;
  mapM (deref p) (data_list_refs p).

(** ** The object and its methods *)

Record UnimodMapper : Type := mk_self {
  unimod_xml_names : list Path;
  _data_list : option (list unimod_data_dict);
  _mapper : option dict
}.

(** A method runs on the object and the files, and returns a value and the
    object and files it leaves, or raises. *)
Record state : Type := mk_state {
  world : os;
  self : UnimodMapper
}.

Definition M (A : Type) : Type := state → result (A * state).

Global Instance M_ret : MRet M := λ A a s, Ok (a, s).
Global Instance M_bind : MBind M := λ A B f m s,
  match m s with
  | Ok (a, s') => f a s'
  | Raise e => Raise e
  end.

Definition lift {A} (r : result A) : M A := λ s,
  match r with
  | Ok a => Ok (a, s)
  | Raise e => Raise e
  end.

(** The property [data_list]: parsed on first use, then kept. *)
Definition data_list : M (list unimod_data_dict) := λ s,
  match _data_list (self s) with
  | Some l => Ok (l, s)
  | None =>
      l ← _parseXML (world s) (unimod_xml_names (self s));
      Ok (l, mk_state (world s)
                (mk_self (unimod_xml_names (self s)) (Some l) (_mapper (self s))))
  end.

(** The property [mapper]: built from [self.data_list] on first use, then
    kept. *)
Definition mapper : M dict :=
  λ s,
  match _mapper (self s) with
  | Some m => Ok (m, s)
  | None =>
      '(l, s) ← data_list s;
      let m := _initialize_mapper l in
      Ok (m, mk_state (world s)
                (mk_self (unimod_xml_names (self s)) (_data_list (self s)) (Some m)))
  end.

(** [self.data_list[index][return_key]]; the key is given as the
    projection it selects. *)
Definition _data_list_2_value {A} (index : nat)
    (return_key : unimod_data_dict → A) : M A :=
  l ← data_list;
  match l !! index with
  | Some d => mret (return_key d)
  | None => lift (Raise IndexError)
  end.

(** [min(l)] *)
Definition py_min (l : list nat) : result nat :=
  match l with
  | [] => Raise ValueError
  | x :: l => Ok (foldl Nat.min x l)
  end.

(** An id given to an id-keyed method: an [int] or a [str]. *)
Inductive unimod_id_arg : Type :=
  | id_int (n : Z)
  | id_str (s : string).

(** [if isinstance(unimod_id, int) is True: unimod_id = str(unimod_id)] *)
Definition normalize_id (unimod_id : unimod_id_arg) : string :=
  match unimod_id with
  | id_int n => pretty n
  | id_str s => s
  end.

(** The body the list methods share:
<<
    list_2_return = []
    index_list = self.mapper.get(k, None)
    if index_list is not None:
        for index in index_list:
            list_2_return.append(self._data_list_2_value(index, return_key))
    return list_2_return
>> *)
Definition get_list {A} (k : key) (return_key : unimod_data_dict → A)
    : M (list A) :=
  let list_2_return := [] in
  mapper ← mapper;
  match dict_get k mapper with
  | Some index_list =>
      for_ index_list
        (λ list_2_return index,
           v ← _data_list_2_value index return_key;
           mret (list_2_return ++ [v]))
        list_2_return
  | None => mret list_2_return
  end.

(** The body the "first" methods share:
<<
    index = self.mapper.get(k, None)
    if index is not None:
        index = min(self.mapper.get(k, None))
        rval = self._data_list_2_value(index, return_key)
    else:
        rval = None
    return rval
>> *)
Definition get_first {A} (k : key) (return_key : unimod_data_dict → A)
    : M (option A) :=
  m ← mapper;
  match dict_get k m with
  | Some _ =>
      m ← mapper;
      match dict_get k m with
      | Some index_list =>
          index ← lift (py_min index_list);
          rval ← _data_list_2_value index return_key;
          mret (Some rval)
      | None => lift (Raise TypeError)
      end
  | None => mret None
  end.

(** The body of the two mass methods that subscript the index:
<<
    list_2_return = []
    for index in self.mapper[mass]:
        list_2_return.append(self._data_list_2_value(index, return_key))
    return list_2_return
>> *)
Definition getitem_list {A} (k : key) (return_key : unimod_data_dict → A)
    : M (list A) :=
  let list_2_return := [] in
  mapper ← mapper;
  index_list ← lift (dict_getitem k mapper);
  for_ index_list
    (λ list_2_return index,
       v ← _data_list_2_value index return_key;
       mret (list_2_return ++ [v]))
    list_2_return.

Definition name2mass_list (unimod_name : string) : M (list float) :=
  get_list (KStr unimod_name) mono_mass.
Definition name2first_mass (unimod_name : string) : M (option float) :=
  get_first (KStr unimod_name) mono_mass.
Definition name2composition_list (unimod_name : string) : M (list (gmap string Z)) :=
  get_list (KStr unimod_name) element.
Definition name2first_composition (unimod_name : string) : M (option (gmap string Z)) :=
  get_first (KStr unimod_name) element.
Definition name2id_list (unimod_name : string) : M (list string) :=
  get_list (KStr unimod_name) unimodID.
Definition name2first_id (unimod_name : string) : M (option string) :=
  get_first (KStr unimod_name) unimodID.
Definition name2specificity_list (unimod_name : string)
    : M (list (list (string * string))) :=
  get_list (KStr unimod_name) specificity.

Definition id2mass_list (unimod_id : unimod_id_arg) : M (list float) :=
  get_list (KStr (normalize_id unimod_id)) mono_mass.
Definition id2first_mass (unimod_id : unimod_id_arg) : M (option float) :=
  get_first (KStr (normalize_id unimod_id)) mono_mass.
Definition id2composition_list (unimod_id : unimod_id_arg)
    : M (list (gmap string Z)) :=
  get_list (KStr (normalize_id unimod_id)) element.
Definition id2first_composition (unimod_id : unimod_id_arg)
    : M (option (gmap string Z)) :=
  get_first (KStr (normalize_id unimod_id)) element.
Definition id2name_list (unimod_id : unimod_id_arg) : M (list string) :=
  get_list (KStr (normalize_id unimod_id)) unimodname.
Definition id2first_name (unimod_id : unimod_id_arg) : M (option string) :=
  get_first (KStr (normalize_id unimod_id)) unimodname.

Definition mass2name_list (mass : float) : M (list string) :=
  getitem_list (KFloat mass) unimodname.
Definition mass2id_list (mass : float) : M (list string) :=
  get_list (KFloat mass) unimodID.
Definition mass2composition_list (mass : float) : M (list (gmap string Z)) :=
  getitem_list (KFloat mass) element.

Definition composition2name_list (composition : string) : M (list string) :=
  get_list (KStr composition) unimodname.
Definition composition2id_list (composition : string) : M (list string) :=
  get_list (KStr composition) unimodID.

(** [len(set(l)) == 1] on the masses [composition2mass] collects.  A set
    keeps one of two entries when they are the same object or equal under
    [==].  The mass of a record is one object and the masses of two records
    are two ([_parseXML] makes each by its own call of [float]), so an
    entry is kept with the position of its record. *)
Definition same_entry (a b : nat * float) : bool :=
  Nat.eqb a.1 b.1 || PrimFloat.eqb a.2 b.2.

Definition set_add (s : list (nat * float)) (x : nat * float)
    : list (nat * float) :=
  if existsb (same_entry x) s then s else s ++ [x].

Definition py_set (l : list (nat * float)) : list (nat * float) :=
  foldl set_add [] l.

Definition composition2mass (composition : string) : M (option float) :=
  let mass_2_return := None in
  let list_2_return := [] in
  mapper ← mapper;
  match dict_get (KStr composition) mapper with
  | Some index_list =>
      list_2_return ←
        for_ index_list
          (λ list_2_return index,
             v ← _data_list_2_value index mono_mass;
             mret (list_2_return ++ [(index, v)]))
          list_2_return;
      if Nat.eqb (length (py_set list_2_return)) 1 then
        match list_2_return with
        | x :: _ => mret (Some x.2)
        | [] => lift (Raise IndexError)
        end
      else lift (Raise AssertionError)
  | None => mret mass_2_return
  end.

(** ** [round] and the approximate mass lookup *)

(** The integer nearest to [num / den], ties to even ([0 < den]). *)
Definition round_half_even (num den : Z) : Z :=
  let q := (num `div` den)%Z in
  match (2 * (num `mod` den) ?= den)%Z with
  | Lt => q
  | Eq => if Z.even q then q else (q + 1)%Z
  | Gt => (q + 1)%Z
  end.

(** The binary64 nearest to [p / q], ties to even, with sign [s]
    ([0 ≤ p], [0 < q]): the quotient is cut after more than 53 bits at an
    exponent below the smallest of the format, and rounded from there. *)
Definition nearest_binary64 (s : bool) (p q : Z) : spec_float :=
  if (p =? 0)%Z then S754_zero s
  else
    let ex := Z.min (-1074) (Z.log2 p - Z.log2 q - 64) in
    let num := (p * 2 ^ (- ex))%Z in
    let r := (num `mod` q)%Z in
    let lx := if (r =? 0)%Z then loc_Exact else loc_Inexact (2 * r ?= q)%Z in
    binary_round_aux prec emax s (num `div` q)%Z ex lx.

(** [double_round] of CPython: the value is written in decimal with
    [ndigits] places after the point, correctly rounded, and the decimal
    is read back as the nearest float. *)
Definition double_round (s : bool) (m : positive) (e : Z) (ndigits : Z)
    : result float :=
  let num := (Z.pos m * 10 ^ Z.max ndigits 0 * 2 ^ Z.max e 0)%Z in
  let den := (10 ^ Z.max (- ndigits) 0 * 2 ^ Z.max (- e) 0)%Z in
  let k := round_half_even num den in
  match nearest_binary64 s (k * 10 ^ Z.max (- ndigits) 0) (10 ^ Z.max ndigits 0) with
  | S754_infinity _ => Raise OverflowError
  | r => Ok (SF2Prim r)
  end.

(** [round(x, ndigits)] on a float, [ndigits] an [int] within
    [Py_ssize_t]. *)
Definition py_round (x : float) (ndigits : Z) : result float :=
  match Prim2SF x with
  | S754_finite s m e =>
      if (323 <? ndigits)%Z then Ok x
      else if (ndigits <? -308)%Z then Ok (0 * x)%float
      else double_round s m e ndigits
  | _ => Ok x
  end.

(** [sys.float_info.epsilon] *)
Definition epsilon : float := 0x1p-52%float.

Definition _appMass2whatever {A} (mass : float) (decimal_places : Z)
    (entry_key : unimod_data_dict → A) : M (list A) :=
  let return_list := [] in
  l ← data_list;
  for_ l
    (λ return_list entry,
       let umass := mono_mass entry in
       rounded_umass ← lift (py_round umass decimal_places);
       if PrimFloat.leb (PrimFloat.abs (rounded_umass - mass)) epsilon then
         mret (return_list ++ [entry_key entry])
       else mret return_list)
    return_list.

Definition appMass2id_list (mass : float) (decimal_places : Z) : M (list string) :=
  _appMass2whatever mass decimal_places unimodID.
Definition appMass2element_list (mass : float) (decimal_places : Z)
    : M (list (gmap string Z)) :=
  _appMass2whatever mass decimal_places element.
Definition appMass2name_list (mass : float) (decimal_places : Z) : M (list string) :=
  _appMass2whatever mass decimal_places unimodname.

Definition _map_key_2_index_2_value {A} (map_key : key)
    (return_key : unimod_data_dict → A) : M (option A) :=
  m ← mapper;
  match dict_get map_key m with
  | None => mret None
  | Some index =>
      match index with
      | i :: _ => v ← _data_list_2_value i return_key; mret (Some v)
      | [] => lift (Raise IndexError)
      end
  end.

(** ** The overlay writer *)

(** The dict [writeXML] is given: ['mass'], ['name'], ['composition'] and,
    when the caller sets it, ['id']. *)
Record modification_dict : Type := mk_mod {
  mod_mass : float;
  mod_name : string;
  mod_composition : gmap string Z;
  mod_id : option string
}.

(** [l.insert(-1, x)]: before the last entry, or first in an empty list. *)
Definition insert_before_last {A} (x : A) (l : list A) : list A :=
  take (length l - 1) l ++ x :: drop (length l - 1) l.

(** What [writeXML] does with the file, for the value of an attribute
    (CPython 3.11; a [str] is the string of its UTF-8 bytes, and the file
    is written in UTF-8):
    - [tree.write] writes every character, TAB, LF and CR as character
      references;
    - [xmldom.parse] reads that file.  It raises ExpatError at a character
      XML has no place for: a control character other than TAB, LF and CR,
      U+FFFE or U+FFFF;
    - [toprettyxml] writes TAB, LF and CR as they are, and [print] puts
      that text in the file;
    - the parser of [_parseXML] reads each of them as a space, CR LF
      together as one space. *)
Definition is_control (c : Ascii.ascii) : bool :=
  let n := Ascii.nat_of_ascii c in
  (n <? 32) && negb ((n =? 9) || (n =? 10) || (n =? 13)).

(** U+FFFE and U+FFFF in UTF-8 *)
Definition noncharacters : list string :=
  [String (Ascii.ascii_of_nat 239)
     (String (Ascii.ascii_of_nat 191) (String (Ascii.ascii_of_nat 190) ""));
   String (Ascii.ascii_of_nat 239)
     (String (Ascii.ascii_of_nat 191) (String (Ascii.ascii_of_nat 191) ""))].

Fixpoint not_well_formed (s : string) : bool :=
  match s with
  | "" => false
  | String c s' =>
      is_control c
      || existsb (λ n, String.prefix n s) noncharacters
      || not_well_formed s'
  end.

Definition TAB : Ascii.ascii := Ascii.ascii_of_nat 9.
Definition LF : Ascii.ascii := Ascii.ascii_of_nat 10.
Definition CR : Ascii.ascii := Ascii.ascii_of_nat 13.
Definition SPACE : Ascii.ascii := Ascii.ascii_of_nat 32.

Fixpoint normalize_attribute (s : string) : string :=
  match s with
  | "" => ""
  | String c s' =>
      if Ascii.eqb c CR then
        match s' with
        | String c' s'' =>
            if Ascii.eqb c' LF then String SPACE (normalize_attribute s'')
            else String SPACE (normalize_attribute s')
        | "" => " "
        end
      else if Ascii.eqb c TAB || Ascii.eqb c LF
      then String SPACE (normalize_attribute s')
      else String c (normalize_attribute s')
  end.

(** The value the parser reads for an attribute that [writeXML] wrote. *)
Definition attribute_read_back (s : string) : result string :=
  if not_well_formed s then Raise ExpatError
  else Ok (normalize_attribute s).

(** The events the tree of one [{usermod}mod] element reads back as.  The
    mass attribute is written as [str(mass)] and read with [float], which
    gives the mass back; an element is written for each item of the
    composition, here in the order of [map_to_list].  The order of the
    items of the Python dict, which a [gmap] does not keep, decides only
    when two symbols read back as the same string; the properties of
    [writeXML] below are about symbols that read back as written. *)
Definition mod_events (len_mod_dicts : nat) (modification_dict : modification_dict)
    : result (list xml_event) :=
  let id := match mod_id modification_dict with
            | None => "u" +:+ pretty len_mod_dicts
            | Some i => i
            end in
  title ← attribute_read_back (mod_name modification_dict);
  record_id ← attribute_read_back id;
  elements ← mapM (λ '(symbol, number),
                     symbol ← attribute_read_back symbol;
                     Ok [start_element symbol number; end_other])
                  (map_to_list (mod_composition modification_dict));
  Ok ([start_mod (Some record_id) title;
       start_delta (mod_mass modification_dict)]
      ++ concat elements ++ [end_delta; end_mod]).

(** The events of the whole file: [{usermod}unimod], in it
    [{usermod}modifications], in it the mods. *)
Definition usermod_events (mod_dicts : list modification_dict)
    : result (list xml_event) :=
  mods ← mapM (mod_events (length mod_dicts)) mod_dicts;
  Ok ([start_other; start_other] ++ concat mods ++ [end_other; end_other]).

Definition _reparseXML (xml_file_list : list Path) : M () := λ s,
  l ← _parseXML (world s) xml_file_list;
  let s := mk_state (world s)
             (mk_self (unimod_xml_names (self s)) (Some l) (_mapper (self s))) in
  '(l, s) ← data_list s;
  Ok ((), mk_state (world s)
            (mk_self (unimod_xml_names (self s)) (_data_list (self s))
                     (Some (_initialize_mapper l)))).

(** The file [xml_file] after it has been written: it reads as
    [events]. *)
Definition write_file (o : os) (xml_file : Path) (events : list xml_event) : os :=
  mk_os (cwd o) (here o) (<[resolve o xml_file := events]> (files o)).

Definition writeXML (modification_dict : modification_dict)
    (xml_file : option Path) : M () := λ s,
  let xml_file := match xml_file with
                  | None => truediv (here (world s)) (mk_path false ["usermod.xml"])
                  | Some f => f
                  end in
  let mod_dicts := [modification_dict] in
  mod_dicts ←
    match read_file (world s) xml_file with
    | Some _ =>
        data_list ← _parseXML (world s) [xml_file];
        Ok (foldl (λ mod_dicts data_dict,
                     let mod_dict := mk_mod (mono_mass data_dict)
                                            (unimodname data_dict)
                                            (element data_dict)
                                            (Some (unimodID data_dict)) in
                     insert_before_last mod_dict mod_dicts)
                  mod_dicts data_list)
    | None => Ok mod_dicts
    end;
  events ← usermod_events mod_dicts;
  let s := mk_state (write_file (world s) xml_file events) (self s) in
  let xml_list := map (truediv (here (world s))) (unimod_xml_names (self s)) in
  let xml_list := xml_list ++ [xml_file] in
  _reparseXML xml_list s.

(** ** The request reconciler [map_mods] *)

(** The tests call [UnimodMapper().map_mods(mod_list=...)]; the method is
    not in [unimod_mapper.py].  The definitions of this section follow
    section 4.3 of the specification. *)

(** Modelled from the spec: the two classifications of a request
    (section 3).  The method [map_mods] is missing from the source. *)
Inductive mod_type : Type := fixed | variable.

(** Modelled from the spec: the resolution key of a request, exactly one
    of a name and an id (section 3); the id is an [int] or a [str]. *)
Inductive request_key : Type :=
  | by_name (name : string)
  | by_id (id : unimod_id_arg).

(** Modelled from the spec: the neutral-loss hint of a request when it
    has one, a numeric literal or the sentinel that asks for the value of
    the dataset (section 3). *)
Inductive neutral_loss_hint : Type :=
  | nl_literal (x : float)
  | nl_unimod.

(** Modelled from the spec: a ModificationRequest (section 3). *)
Record ModificationRequest : Type := mk_request {
  req_aa : string;
  req_type : mod_type;
  req_position : string;
  req_key : request_key;
  req_neutral_loss : option neutral_loss_hint
}.

(** Modelled from the spec: the neutral loss of a result, no value, an
    empty list or a loss mass as a numeric string (section 4.3, step 4). *)
Inductive neutral_loss_value : Type :=
  | nl_null
  | nl_empty_list
  | nl_mass (s : string).

(** Modelled from the spec: a MappedModification (section 3). *)
Record MappedModification : Type := mk_mapped {
  out_aa : string;
  out_position : string;
  out_name : string;
  out_mass : float;
  out_composition : gmap string Z;
  out_id : unimod_id_arg;
  out_neutral_loss : neutral_loss_value;
  _id : nat;
  org : ModificationRequest;
  unimod : bool
}.

(** Modelled from the spec: the two result lists of the reconciler
    (section 4.3). *)
Record reconciled : Type := mk_reconciled {
  fixed_mods : list MappedModification;
  variable_mods : list MappedModification
}.

Section reconciler.
(** What the specification leaves open: when the position or
    classification of a record "corresponds logically" to the position
    qualifier of a request, and the neutral-loss data of the dataset for
    a record and a site ([None] when no loss is defined there). *)
Variable position_corresponds : string → unimod_data_dict → bool.
Variable dataset_neutral_loss : unimod_data_dict → string → option string.

(** Modelled from the spec: step 2 of section 4.3, the test a record
    must pass for a request keyed by name.  The method [map_mods] is
    missing from the source. *)
Definition site_matches (req : ModificationRequest) (d : unimod_data_dict)
    : bool :=
  (String.eqb (req_aa req) "*"
   || bool_decide (req_aa req ∈ (specificity d).*1))
  && position_corresponds (req_position req) d.

(** Modelled from the spec: steps 2 and 3 of section 4.3, the record a
    request resolves to.  The method [map_mods] is missing from the
    source.  A name is looked up with the list lookup of the facade and
    the first record that passes [site_matches] is taken; an id is
    normalized and looked up with the "first" lookup. *)
Definition resolve_request (req : ModificationRequest)
    : M (option unimod_data_dict) :=
  match req_key req with
  | by_name name =>
      candidates ← get_list (KStr name) (λ d, d);
      mret (List.find (site_matches req) candidates)
  | by_id unimod_id =>
      get_first (KStr (normalize_id unimod_id)) (λ d, d)
  end.

(** Modelled from the spec: step 4 of section 4.3, the neutral loss of
    the result.  The method [map_mods] is missing from the source. *)
Definition resolve_neutral_loss (req : ModificationRequest)
    (d : unimod_data_dict) : neutral_loss_value :=
  match req_neutral_loss req with
  | None => nl_null
  | Some (nl_literal _) => nl_empty_list
  | Some nl_unimod =>
      match dataset_neutral_loss d (req_aa req) with
      | None => nl_empty_list
      | Some s => nl_mass s
      end
  end.

(** Modelled from the spec: step 4 of section 4.3, the result built for
    a resolved request.  The method [map_mods] is missing from the
    source.  The site and position are those of the request; the id is
    the id as the caller gave it, or the string of the dataset for a
    request keyed by name. *)
Definition mapped_modification (index : nat) (req : ModificationRequest)
    (d : unimod_data_dict) : MappedModification :=
  mk_mapped (req_aa req) (req_position req) (unimodname d) (mono_mass d)
            (element d)
            (match req_key req with
             | by_name _ => id_str (unimodID d)
             | by_id unimod_id => unimod_id
             end)
            (resolve_neutral_loss req d)
            index req true.

(** Modelled from the spec: steps 1, 5 and 6 of section 4.3.  The method
    [map_mods] is missing from the source. *)
Definition map_mods (mod_list : list ModificationRequest) : M reconciled :=
  for_ (enumerate mod_list)
    (λ rdict '(index, req),
       found ← resolve_request req;
       match found with
       | None => mret rdict
       | Some d =>
           let m := mapped_modification index req d in
           match req_type req with
           | fixed =>
               mret (mk_reconciled (fixed_mods rdict ++ [m]) (variable_mods rdict))
           | variable =>
               mret (mk_reconciled (fixed_mods rdict) (variable_mods rdict ++ [m]))
           end
       end)
    (mk_reconciled [] []).
End reconciler.

(** ** States with a store *)

(** The object once its store is [l]: the index is either not built yet
    or the one built from [l]. *)
Definition with_store (o : os) (names : list Path) (l : list unimod_data_dict)
    (indexed : bool) : state :=
  mk_state o (mk_self names (Some l)
                (if indexed then Some (_initialize_mapper l) else None)).

(** ** Predicates of the statements *)

(** An entry whose list is not empty, ascending, and below [b]. *)
Definition entry_ok (b : nat) (e : key * list nat) : Prop :=
  e.2 ≠ [] ∧ StronglySorted le e.2 ∧ Forall (λ i, i < b) e.2.


(** The records of the store at the positions of an index list. *)
Definition records_at (l : list unimod_data_dict) (index_list : list nat)
    : list unimod_data_dict :=
  omap (λ i, l !! i) index_list.

(** What a "first" method [op] does for the key [k] it looks up and the
    attribute [return_key] it returns, on a store [l]: with a key of the
    index, the attribute of the record at the lowest position of the list
    of the key; else [None]. *)
Definition returns_lowest_match {A} (op : M (option A)) (k : key)
    (return_key : unimod_data_dict → A)
    (o : os) (names : list Path) (l : list unimod_data_dict) (indexed : bool)
    : Prop :=
  match dict_get k (_initialize_mapper l) with
  | Some index_list =>
      ∃ i d, i ∈ index_list ∧ (∀ j, j ∈ index_list → i ≤ j) ∧
             l !! i = Some d ∧
             op (with_store o names l indexed)
             = Ok (Some (return_key d), with_store o names l true)
  | None =>
      op (with_store o names l indexed) = Ok (None, with_store o names l true)
  end.

(** ** Sample data *)

Definition acetyl : unimod_data_dict :=
  mk_data "1" "Acetyl" {[ "H" := 2%Z; "C" := 2%Z; "O" := 1%Z ]}
          [("K", "Post-translational"); ("N-term", "Post-translational")]
          42.010565%float.

Definition carbamidomethyl : unimod_data_dict :=
  mk_data "4" "Carbamidomethyl"
          {[ "H" := 3%Z; "C" := 2%Z; "N" := 1%Z; "O" := 1%Z ]}
          [("C", "Chemical derivative"); ("M", "Chemical derivative")]
          57.021464%float.

Definition oxidation : unimod_data_dict :=
  mk_data "35" "Oxidation" {[ "O" := 1%Z ]}
          [("M", "Post-translational")] 15.994915%float.

Definition sample_store : list unimod_data_dict :=
  [acetyl; carbamidomethyl; oxidation].

Definition no_files : os := mk_os [] (mk_path true ["unimod_mapper"]) ∅.

(** The records at the positions of [index_list] carry more than one
    distinct mass: two of them, at different positions, have masses that
    are not equal under [==]. *)
Definition more_than_one_mass (l : list unimod_data_dict)
    (index_list : list nat) : Prop :=
  ∃ i j d d', i ∈ index_list ∧ j ∈ index_list ∧
              l !! i = Some d ∧ l !! j = Some d' ∧
              i ≠ j ∧ PrimFloat.eqb (mono_mass d) (mono_mass d') = false.

(** The test of [_appMass2whatever] on one record: its mass, rounded to
    [decimal_places], is within [epsilon] of the mass asked for. *)
Definition close_to (mass : float) (decimal_places : Z)
    (entry : unimod_data_dict) : bool :=
  match py_round (mono_mass entry) decimal_places with
  | Ok rounded_umass =>
      PrimFloat.leb (PrimFloat.abs (rounded_umass - mass)) epsilon
  | Raise _ => false
  end.

(** The approximate lookup in the words of the specification, which
    compares with the rounded query mass: the attribute of the records
    whose rounded mass is within [epsilon] of the mass asked for, rounded
    to the same number of places. *)
Definition close_to_rounded_query (mass : float) (decimal_places : Z)
    (entry : unimod_data_dict) : bool :=
  match py_round (mono_mass entry) decimal_places,
        py_round mass decimal_places with
  | Ok rounded_umass, Ok rounded_mass =>
      PrimFloat.leb (PrimFloat.abs (rounded_umass - rounded_mass)) epsilon
  | _, _ => false
  end.

Definition appMass_rounded_query {A} (mass : float) (decimal_places : Z)
    (entry_key : unimod_data_dict → A) (l : list unimod_data_dict) : list A :=
  entry_key <$> filter (close_to_rounded_query mass decimal_places) l.

Definition fluoro : unimod_data_dict :=
  mk_data "127" "Fluoro" {[ "H" := (-1)%Z; "F" := 1%Z ]}
          [("F", "Chemical derivative")] 17.990578%float.

(** The items of a list written one after the other, each as
    [Symbol(count)]. *)
Definition render (items : list (string * Z)) : string :=
  foldr (λ item s, format_element item.1 item.2 +:+ s) "" items.

(** The strict order of Python on the symbols of two items. *)
Definition symbol_lt (a b : string * Z) : Prop :=
  String.compare a.1 b.1 = Lt.

(** The keys one record is registered under. *)
Definition record_keys (d : unimod_data_dict) : list key :=
  [KStr (unimodID d); KStr (unimodname d);
   KStr (hill_notation (element d)); KFloat (mono_mass d)].

(** No count of the composition is zero. *)
Definition nonzero_counts (composition : gmap string Z) : Prop :=
  ∀ symbol number, composition !! symbol = Some number → number ≠ 0%Z.

(** A source with one mod: a specificity classified as Artefact, an
    element outside the delta and an element with a count of zero, none of
    which reaches the record. *)
Definition sample_events : list xml_event :=
  [start_other; start_other;
   start_mod (Some "4") "Carbamidomethyl";
   start_specificity "C" "Chemical derivative"; start_element "H" 9; end_other;
   end_other;
   start_specificity "M" "Chemical derivative"; end_other;
   start_specificity "U" "Artefact"; end_other;
   start_delta 57.021464%float;
   start_element "H" 3; end_other;
   start_element "C" 2; end_other;
   start_element "N" 1; end_other;
   start_element "S" 0; end_other;
   start_element "O" 1; end_other;
   end_delta;
   end_mod;
   end_other; end_other].

Definition unimod_xml : Path := mk_path true ["unimod_mapper"; "unimod.xml"].
Definition usermod_xml : Path := mk_path true ["unimod_mapper"; "usermod.xml"].

Definition sample_os : os :=
  mk_os [] (mk_path true ["unimod_mapper"])
        {[ ["unimod_mapper"; "unimod.xml"] := sample_events ]}.

(** ** The reconciler on a store *)

Global Instance mod_type_eq_dec : EqDecision mod_type.
Proof. solve_decision. Defined.

(** The record a request resolves to on the store [l], if any: what
    [resolve_request] returns there. *)
Definition resolution (position_corresponds : string → unimod_data_dict → bool)
    (l : list unimod_data_dict) (req : ModificationRequest)
    : option unimod_data_dict :=
  match req_key req with
  | by_name name =>
      index_list ← dict_get (KStr name) (_initialize_mapper l);
      List.find (site_matches position_corresponds req) (records_at l index_list)
  | by_id unimod_id =>
      index_list ← dict_get (KStr (normalize_id unimod_id)) (_initialize_mapper l);
      i ← head index_list;
      l !! i
  end.

(** The result for the request at a position of the input, when the
    request is of type [t] and resolves. *)
Definition mapped_of_type
    (position_corresponds : string → unimod_data_dict → bool)
    (dataset_neutral_loss : unimod_data_dict → string → option string)
    (l : list unimod_data_dict) (t : mod_type)
    (entry : nat * ModificationRequest) : option MappedModification :=
  if decide (req_type entry.2 = t) then
    mapped_modification dataset_neutral_loss entry.1 entry.2
      <$> resolution position_corresponds l entry.2
  else None.

(** The three requests of the scenario of section 8 and the results
    expected for them. *)
Definition request_oxidation : ModificationRequest :=
  mk_request "M" variable "any" (by_name "Oxidation") None.
Definition request_carbamidomethyl : ModificationRequest :=
  mk_request "C" fixed "any" (by_name "Carbamidomethyl") None.
Definition request_acetyl : ModificationRequest :=
  mk_request "*" variable "Prot-N-term" (by_name "Acetyl") None.

Definition scenario_requests : list ModificationRequest :=
  [request_oxidation; request_carbamidomethyl; request_acetyl].

Definition scenario_result : reconciled :=
  mk_reconciled
    [mk_mapped "C" "any" "Carbamidomethyl" 57.021464%float
               {[ "H" := 3%Z; "C" := 2%Z; "N" := 1%Z; "O" := 1%Z ]}
               (id_str "4") nl_null 1 request_carbamidomethyl true]
    [mk_mapped "M" "any" "Oxidation" 15.994915%float {[ "O" := 1%Z ]}
               (id_str "35") nl_null 0 request_oxidation true;
     mk_mapped "*" "Prot-N-term" "Acetyl" 42.010565%float
               {[ "H" := 2%Z; "C" := 2%Z; "O" := 1%Z ]}
               (id_str "1") nl_null 2 request_acetyl true].

(** The requests of the negative scenario, which name a modification the
    dataset does not have. *)
Definition requests_not_in_unimod : list ModificationRequest :=
  [mk_request "M" variable "any" (by_name "Yadailation") None;
   mk_request "C" fixed "any" (by_name "Yadailation") None].

(** ** The overlay writer on a state *)

(** An entry of the overlay file as [writeXML] takes it over. *)
Definition to_mod_dict (data_dict : unimod_data_dict) : modification_dict :=
  mk_mod (mono_mass data_dict) (unimodname data_dict) (element data_dict)
         (Some (unimodID data_dict)).

(** A string that reads back as it is written: it has no TAB, LF or CR
    and no character that XML has no place for. *)
Definition reads_back_as_written (s : string) : bool :=
  match attribute_read_back s with
  | Ok s' => String.eqb s' s
  | Raise _ => false
  end.

(** An entry whose name, id and element symbols read back as written. *)
Definition entry_reads_back_as_written (modification_dict : modification_dict)
    : bool :=
  reads_back_as_written (mod_name modification_dict)
  && from_option reads_back_as_written true (mod_id modification_dict)
  && forallb (λ item, reads_back_as_written item.1)
             (map_to_list (mod_composition modification_dict)).

(** A string of printable ASCII characters. *)
Fixpoint printable (s : string) : bool :=
  match s with
  | "" => true
  | String c s' =>
      (32 <=? Ascii.nat_of_ascii c) && (Ascii.nat_of_ascii c <? 127)
      && printable s'
  end.

(** The events of [mod_events] and [usermod_events] for entries that read
    back as written. *)
Definition plain_mod_events (len_mod_dicts : nat)
    (modification_dict : modification_dict) : list xml_event :=
  [start_mod (Some (default ("u" +:+ pretty len_mod_dicts)
                            (mod_id modification_dict)))
             (mod_name modification_dict);
   start_delta (mod_mass modification_dict)]
  ++ flat_map (λ '(symbol, number), [start_element symbol number; end_other])
              (map_to_list (mod_composition modification_dict))
  ++ [end_delta; end_mod].

Definition plain_usermod_events (mod_dicts : list modification_dict)
    : list xml_event :=
  [start_other; start_other]
  ++ flat_map (plain_mod_events (length mod_dicts)) mod_dicts
  ++ [end_other; end_other].

(** The composition without its items of count zero. *)
Definition without_zero_counts (composition : gmap string Z) : gmap string Z :=
  filter (λ item, item.2 ≠ 0%Z) composition.

(** The record an entry written by [writeXML] is parsed into, [len] being
    the number of entries of the file. *)
Definition written_record (len : nat) (modification_dict : modification_dict)
    : unimod_data_dict :=
  mk_data (default ("u" +:+ pretty len) (mod_id modification_dict))
          (mod_name modification_dict)
          (without_zero_counts (mod_composition modification_dict))
          []
          (mod_mass modification_dict).

(** The same while it is in the parser. *)
Definition written_tmp (len : nat) (modification_dict : modification_dict)
    : tmp_dict :=
  mk_tmp (default ("u" +:+ pretty len) (mod_id modification_dict))
         (mod_name modification_dict)
         (without_zero_counts (mod_composition modification_dict))
         []
         (Some (mod_mass modification_dict)).

(** What the parser does with one element of a delta. *)
Definition insert_nonzero (composition : gmap string Z) (item : string * Z)
    : gmap string Z :=
  if bool_decide (item.2 ≠ 0%Z) then <[item.1 := item.2]> composition
  else composition.

(** An entry for the overlay with an element of count zero, and an object
    that has not read its sources yet. *)
Definition sample_mod : modification_dict :=
  mk_mod 1.5%float "Foo" {[ "C" := 1%Z; "H" := 0%Z ]} None.

(** A name with a TAB in it and the name it reads back as, and a name with
    the control character U+0001 in it. *)
Definition foo_tab_bar : string := "Foo" +:+ String TAB "Bar".
Definition foo_space_bar : string := "Foo Bar".
Definition foo_soh_bar : string := "Foo" +:+ String (Ascii.ascii_of_nat 1) "Bar".

Definition sample_state : state :=
  mk_state sample_os (mk_self [usermod_xml; unimod_xml] None None).


(** ** The registrations of a store *)

(** What [_initialize_mapper] registers, in the order of its two loops:
    each position of the store with each key of its record. *)
Definition registrations (l : list unimod_data_dict) : list (nat * key) :=
  flat_map (λ '(i, d), pair i <$> record_keys d) (enumerate l).

(** The positions registered under a key equal to [k]. *)
Definition positions_of (k : key) (l : list unimod_data_dict) : list nat :=
  (filter (λ r, key_eqb r.2 k = true) (registrations l)).*1.

(** The records of the store that have a key equal to [k], in the order of
    the store, each once for each of its keys that equals [k]. *)
Definition matching_records (k : key) (l : list unimod_data_dict)
    : list unimod_data_dict :=
  flat_map (λ d, (λ _, d) <$> filter (λ v, key_eqb v k = true) (record_keys d)) l.

(** What a list method [op] does for the key [k] it looks up and the
    attribute [return_key] it returns, on a store [l]: the attribute of
    each record that has a key equal to [k]. *)
Definition returns_attributes_of_matches {A} (op : M (list A)) (k : key)
    (return_key : unimod_data_dict → A)
    (o : os) (names : list Path) (l : list unimod_data_dict) (indexed : bool)
    : Prop :=
  op (with_store o names l indexed)
  = Ok (return_key <$> matching_records k l, with_store o names l true).

(** A "first" method returns the first entry of the list its list method
    returns, or [None] when that list is empty. *)
Definition returns_head_of {A} (first : M (option A)) (all : M (list A))
    (o : os) (names : list Path) (l : list unimod_data_dict) (indexed : bool)
    : Prop :=
  ∃ xs, all (with_store o names l indexed) = Ok (xs, with_store o names l true) ∧
        first (with_store o names l indexed)
        = Ok (head xs, with_store o names l true).

(** ** The constructor and the setters *)

(** [__init__(self, refresh_xml, xml_file_list)], which leaves the new
    object and the files.  [response] is what [requests.get(url)] returns,
    as the events its content parses into; it is written to [unimod.xml]
    in the directory of the module when the file is missing there or a
    refresh is asked for.  The object keeps the list it is given and
    appends to it the default path of each of ["usermod.xml"] and
    ["unimod.xml"] that is the name of none of the given files. *)
Definition __init__ (refresh_xml : bool) (xml_file_list : option (list Path))
    (response : list xml_event) (o : os) : state :=
  let xml_file_list := default [] xml_file_list in
  let full_path := truediv (here o) (mk_path false ["unimod.xml"]) in
  let refresh_xml := match read_file o full_path with
                     | Some _ => refresh_xml
                     | None => true
                     end in
  let o := if refresh_xml then write_file o full_path response else o in
  let names := path_name <$> xml_file_list in
  let unimod_xml_names :=
    foldl (λ unimod_xml_names xml,
             if bool_decide (xml ∈ names) then unimod_xml_names
             else unimod_xml_names ++ [truediv (here o) (mk_path false [xml])])
          xml_file_list ["usermod.xml"; "unimod.xml"] in
  mk_state o (mk_self unimod_xml_names None None).

(** The setter of the property [data_list]: [self._data_list = data_list];
    the value may be [None]. *)
Definition data_list_setter (data_list : option (list unimod_data_dict))
    : M () := λ s,
  Ok ((), mk_state (world s)
            (mk_self (unimod_xml_names (self s)) data_list (_mapper (self s)))).

(** The setter of the property [mapper]: [self._mapper = mapper]. *)
Definition mapper_setter (mapper : option dict) : M () := λ s,
  Ok ((), mk_state (world s)
            (mk_self (unimod_xml_names (self s)) (_data_list (self s)) mapper)).

(** A new object on the sources [names], which has read nothing yet. *)
Definition unread (o : os) (names : list Path) : state :=
  mk_state o (mk_self names None None).

(** A method is indifferent to when the sources are read: on an object
    that has read nothing it does what it does on the store the sources
    parse into, and raises what the parse raises. *)
Definition reads_on_first_use {A} (op : M A) (o : os) (names : list Path)
    : Prop :=
  op (unread o names)
  = match _parseXML o names with
    | Ok l => op (with_store o names l false)
    | Raise e => Raise e
    end.

(** The number of mods that end in a list of events. *)
Definition is_end_mod (ev : xml_event) : bool :=
  match ev with
  | end_mod => true
  | _ => false
  end.

Definition count_end_mod (events : list xml_event) : nat :=
  length (filter is_end_mod events).

(** The events of the sources of a list that exist, in the order in which
    [_parseXML] reads them. *)
Definition events_read (o : os) (xml_file_list : list Path) : list xml_event :=
  flat_map (λ xml_file, default [] (read_file o xml_file)) xml_file_list.

(** A record as [writeXML] writes it back to the overlay file: without its
    specificity. *)
Definition forget_specificity (d : unimod_data_dict) : unimod_data_dict :=
  mk_data (unimodID d) (unimodname d) (element d) [] (mono_mass d).

(** [Path(__file__).parent.joinpath(xml)], the default place of a source. *)
Definition module_file (o : os) (xml : string) : Path :=
  truediv (here o) (mk_path false [xml]).

(** A file that is not on disk, to give to the constructor. *)
Definition nowhere_xml : Path := mk_path true ["nowhere.xml"].
(** * Properties *)

(** ** The monads *)

Lemma result_bind_Ok {A B} (m : result A) (f : A → result B) (b : B) :
  m ≫= f = Ok b ↔ ∃ a, m = Ok a ∧ f a = Ok b.
Proof.
  destruct m as [a|e]; simpl; split.
  - intros Hf. by exists a.
  - by intros (a' & [= <-] & Hf).
  - done.
  - by intros (a' & [=] & _).
Qed.

Lemma for_result_app {A S} (l1 l2 : list A) (body : S → A → result S) (acc : S) :
  for_ (l1 ++ l2) body acc = for_ l1 body acc ≫= for_ l2 body.
Proof.
  revert acc. induction l1 as [|x l1 IH]; intros acc; [done|].
  simpl. destruct (body acc x); simpl; auto.
Qed.

Lemma for_result_snoc {A S} (l : list A) (x : A) (body : S → A → result S) (acc : S) :
  for_ (l ++ [x]) body acc = for_ l body acc ≫= λ acc, body acc x.
Proof.
  rewrite for_result_app. destruct (for_ l body acc) as [a|]; [|done].
  simpl. by destruct (body a x).
Qed.

(** ** The lazy properties on a state with a store *)

Lemma data_list_with_store o names l c :
  data_list (with_store o names l c) = Ok (l, with_store o names l c).
Proof. done. Qed.

Lemma mapper_with_store o names l c :
  mapper (with_store o names l c)
  = Ok (_initialize_mapper l, with_store o names l true).
Proof. by destruct c. Qed.

Lemma _data_list_2_value_with_store {A} o names l c i (return_key : unimod_data_dict → A) :
  _data_list_2_value i return_key (with_store o names l c)
  = match l !! i with
    | Some d => Ok (return_key d, with_store o names l c)
    | None => Raise IndexError
    end.
Proof.
  unfold _data_list_2_value, mbind, M_bind. rewrite data_list_with_store.
  by destruct (l !! i).
Qed.

(** ** The entries of the index *)

Lemma entry_ok_mono b b' e : b ≤ b' → entry_ok b e → entry_ok b' e.
Proof.
  intros Hb (Hne & Hs & Hlt). repeat split; [done..|].
  eapply Forall_impl; [done|]. intros; simpl in *; lia.
Qed.

Lemma register_entries_ok value index mapper :
  Forall (entry_ok (S index)) mapper →
  Forall (entry_ok (S index)) (register value index mapper).
Proof.
  induction mapper as [|[k l] rest IH]; intros Hall; simpl.
  - constructor; [|constructor]. unfold entry_ok; simpl. split_and!.
    + done.
    + repeat constructor.
    + constructor; [lia|constructor].
  - apply Forall_cons in Hall as [(Hne & Hs & Hlt) Hrest]; simpl in *.
    destruct (key_eqb k value).
    + constructor; [|done]. repeat split; simpl.
      * by destruct l.
      * apply StronglySorted_app. split_and!; [|done|repeat constructor].
        intros i j Hi ->%list_elem_of_singleton.
        rewrite Forall_forall in Hlt. apply Hlt in Hi. lia.
      * apply Forall_app. split; [done|]. constructor; [lia|constructor].
    + constructor; [done|]. by apply IH.
Qed.

Lemma register_record_entries_ok index d mapper :
  Forall (entry_ok (S index)) mapper →
  Forall (entry_ok (S index)) (register_record index d mapper).
Proof. intros H. unfold register_record. by do 4 apply register_entries_ok. Qed.

Lemma enumerate_snoc {A} (l : list A) (x : A) :
  enumerate (l ++ [x]) = enumerate l ++ [(length l, x)].
Proof. unfold enumerate. rewrite imap_app. simpl. by rewrite Nat.add_0_r. Qed.

Lemma _initialize_mapper_snoc l d :
  _initialize_mapper (l ++ [d])
  = register_record (length l) d (_initialize_mapper l).
Proof. unfold _initialize_mapper. by rewrite enumerate_snoc, foldl_app. Qed.

Lemma _initialize_mapper_entries_ok l :
  Forall (entry_ok (length l)) (_initialize_mapper l).
Proof.
  induction l as [|d l IH] using rev_ind; [constructor|].
  rewrite _initialize_mapper_snoc, length_app, Nat.add_1_r.
  apply register_record_entries_ok.
  eapply Forall_impl; [done|]. intros e. apply entry_ok_mono. lia.
Qed.

Lemma dict_get_Some k mapper l :
  dict_get k mapper = Some l → ∃ k', (k', l) ∈ mapper ∧ key_eqb k' k = true.
Proof.
  induction mapper as [|[k' l'] rest IH]; simpl; [done|].
  destruct (key_eqb k' k) eqn:Hk.
  - intros [= ->]. exists k'. split; [left|done].
  - intros (k'' & Hin & Heq)%IH. exists k''. split; [by right|done].
Qed.

Lemma dict_get_entry_ok l k index_list :
  dict_get k (_initialize_mapper l) = Some index_list →
  entry_ok (length l) (k, index_list).
Proof.
  intros (k' & Hin & _)%dict_get_Some.
  pose proof (_initialize_mapper_entries_ok l) as Hall.
  rewrite Forall_forall in Hall. by apply Hall in Hin.
Qed.

Lemma py_min_sorted i l :
  StronglySorted le (i :: l) → py_min (i :: l) = Ok i.
Proof.
  intros [Hall _]%StronglySorted_cons. simpl. f_equal.
  induction l as [|j l IH]; [done|].
  apply Forall_cons in Hall as [Hij Hall]. simpl.
  rewrite Nat.min_l by done. by apply IH.
Qed.

Lemma py_min_least l i :
  py_min l = Ok i → i ∈ l ∧ ∀ j, j ∈ l → i ≤ j.
Proof.
  destruct l as [|x l]; [done|]. simpl. intros [= <-].
  revert x. induction l as [|y l IH]; intros x; simpl.
  - split; [left|]. by intros j ->%list_elem_of_singleton.
  - destruct (IH (x `min` y)) as [Hin Hle]. split.
    + apply elem_of_cons in Hin as [->|Hin]; [|by do 2 right].
      destruct (Nat.min_spec x y) as [[_ ->]|[_ ->]]; [left|right; left].
    + intros j [->|[->|Hj]%elem_of_cons]%elem_of_cons.
      * etrans; [apply Hle; left|lia].
      * etrans; [apply Hle; left|lia].
      * apply Hle. by right.
Qed.

(** ** The list and "first" lookups on a state with a store *)

Lemma collect_loop {A B} o names l c (f : unimod_data_dict → A)
    (g : nat → A → B) (index_list : list nat) (acc : list B) :
  Forall (λ i, i < length l) index_list →
  for_ index_list
    (λ acc index, v ← _data_list_2_value index f; mret (acc ++ [g index v]))
    acc (with_store o names l c)
  = Ok (acc ++ omap (λ i, g i ∘ f <$> l !! i) index_list, with_store o names l c).
Proof.
  revert acc. induction index_list as [|i il IH]; intros acc Hall; simpl.
  - by rewrite app_nil_r.
  - apply Forall_cons in Hall as [Hi Hall].
    apply lookup_lt_is_Some_2 in Hi as [d Hd].
    unfold mbind at 1, M_bind at 1. unfold mbind at 1, M_bind at 1.
    rewrite _data_list_2_value_with_store, Hd. simpl.
    unfold mret, M_ret. rewrite IH by done. by rewrite <- app_assoc.
Qed.

Lemma omap_lookup_fmap {A} (f : unimod_data_dict → A) l index_list :
  omap (λ i, f <$> l !! i) index_list = f <$> records_at l index_list.
Proof.
  unfold records_at. induction index_list as [|i il IH]; [done|].
  simpl. destruct (l !! i); simpl; [f_equal|]; apply IH.
Qed.

Lemma get_list_with_store {A} o names l c k (return_key : unimod_data_dict → A) :
  get_list k return_key (with_store o names l c)
  = Ok (match dict_get k (_initialize_mapper l) with
        | Some index_list => return_key <$> records_at l index_list
        | None => []
        end, with_store o names l true).
Proof.
  unfold get_list, mbind, M_bind. rewrite mapper_with_store.
  destruct (dict_get k (_initialize_mapper l)) as [il|] eqn:Hk; [|done].
  apply dict_get_entry_ok in Hk as (_ & _ & Hlt); simpl in Hlt.
  etrans; [apply (collect_loop _ _ _ _ return_key (λ _ v, v)); done|].
  simpl. f_equal. f_equal. apply (omap_lookup_fmap return_key).
Qed.

Lemma getitem_list_with_store {A} o names l c k (return_key : unimod_data_dict → A) :
  getitem_list k return_key (with_store o names l c)
  = match dict_get k (_initialize_mapper l) with
    | Some index_list =>
        Ok (return_key <$> records_at l index_list, with_store o names l true)
    | None => Raise KeyError
    end.
Proof.
  unfold getitem_list, mbind, M_bind. rewrite mapper_with_store.
  unfold dict_getitem.
  destruct (dict_get k (_initialize_mapper l)) as [il|] eqn:Hk; [|done].
  apply dict_get_entry_ok in Hk as (_ & _ & Hlt); simpl in *.
  etrans; [apply (collect_loop _ _ _ _ return_key (λ _ v, v)); done|].
  simpl. f_equal. f_equal. apply (omap_lookup_fmap return_key).
Qed.

Lemma get_first_with_store {A} o names l c k (return_key : unimod_data_dict → A) :
  returns_lowest_match (get_first k return_key) k return_key o names l c.
Proof.
  unfold returns_lowest_match, get_first, mbind, M_bind.
  rewrite mapper_with_store.
  destruct (dict_get k (_initialize_mapper l)) as [il|] eqn:Hk; [|done].
  rewrite mapper_with_store, Hk.
  pose proof (dict_get_entry_ok _ _ _ Hk) as (Hne & Hs & Hlt); simpl in *.
  destruct il as [|i il]; [done|].
  rewrite (py_min_sorted _ _ Hs). simpl.
  destruct (py_min_least (i :: il) i (py_min_sorted _ _ Hs)) as [Hin Hle].
  apply Forall_cons in Hlt as [Hi _].
  apply lookup_lt_is_Some_2 in Hi as [d Hd].
  exists i, d. split_and!; [done..|].
  rewrite _data_list_2_value_with_store, Hd. done.
Qed.

(** ** The index invariant *)

(** C10 (as amended): for every record store, every key of the built index
    maps to a list of positions that is not empty, is ascending (a position
    may be repeated), and holds only valid positions of the store; so the
    minimum of the list is its first entry. *)
Theorem index_lists_nonempty_ascending_valid
    (data_list : list unimod_data_dict) (k : key) (index_list : list nat) :
  (k, index_list) ∈ _initialize_mapper data_list
  ∨ dict_get k (_initialize_mapper data_list) = Some index_list →
  index_list ≠ [] ∧
  StronglySorted le index_list ∧
  Forall (λ i, i < length data_list) index_list ∧
  ∃ i rest, index_list = i :: rest ∧ py_min index_list = Ok i.
Proof.
  intros Hk.
  assert (entry_ok (length data_list) (k, index_list)) as (Hne & Hs & Hlt).
  { destruct Hk as [Hin|Hget]; [|by eapply dict_get_entry_ok].
    pose proof (_initialize_mapper_entries_ok data_list) as Hall.
    rewrite Forall_forall in Hall. by apply Hall. }
  simpl in *. split_and!; [done..|].
  destruct index_list as [|i rest]; [done|].
  exists i, rest. split; [done|]. by apply py_min_sorted.
Qed.

Lemma index_lists_nonempty_ascending_valid_witness :
  dict_get (KStr "Oxidation") (_initialize_mapper sample_store) = Some [2] ∧
  ([2] ≠ [] ∧
   StronglySorted le [2] ∧
   Forall (λ i, i < length sample_store) [2] ∧
   ∃ i rest, [2] = i :: rest ∧ py_min [2] = Ok i).
Proof.
  assert (dict_get (KStr "Oxidation") (_initialize_mapper sample_store) = Some [2])
    as Hget by (vm_compute; reflexivity).
  split; [exact Hget|].
  apply (index_lists_nonempty_ascending_valid sample_store (KStr "Oxidation") [2]).
  right. exact Hget.
Defined.

(** A record whose id and name are the same string is registered twice
    under that key: the list of the key is not strictly increasing. *)
Lemma index_list_not_strictly_increasing :
  dict_get (KStr "u1") (_initialize_mapper [mk_data "u1" "u1" ∅ [] 1%float])
  = Some [0; 0]
  ∧ ¬ StronglySorted lt [0; 0].
Proof.
  split; [vm_compute; reflexivity|].
  intros [Hall _]%StronglySorted_cons.
  apply Forall_cons in Hall as [Hlt _]. lia.
Qed.

(** ** Lookups with a key that is not in the index *)

Lemma get_list_absent {A} o names l c k (return_key : unimod_data_dict → A) :
  dict_get k (_initialize_mapper l) = None →
  get_list k return_key (with_store o names l c)
  = Ok ([], with_store o names l true).
Proof. intros Hk. by rewrite get_list_with_store, Hk. Qed.

Lemma getitem_list_absent {A} o names l c k (return_key : unimod_data_dict → A) :
  dict_get k (_initialize_mapper l) = None →
  getitem_list k return_key (with_store o names l c) = Raise KeyError.
Proof. intros Hk. by rewrite getitem_list_with_store, Hk. Qed.

(** C3: with a mass that is not a key of the index, [mass2name_list] and
    [mass2composition_list] raise KeyError, where [mass2id_list] returns
    the empty list. *)
Lemma mass_list_lookups_absent_key :
  dict_get (KFloat 99.5) (_initialize_mapper sample_store) = None ∧
  mass2name_list 99.5 (with_store no_files [] sample_store false)
  = Raise KeyError ∧
  mass2composition_list 99.5 (with_store no_files [] sample_store false)
  = Raise KeyError ∧
  mass2id_list 99.5 (with_store no_files [] sample_store false)
  = Ok ([], with_store no_files [] sample_store true).
Proof.
  assert (dict_get (KFloat 99.5) (_initialize_mapper sample_store) = None)
    as Hk by (vm_compute; reflexivity).
  split_and!; [done|..].
  - by apply getitem_list_absent.
  - by apply getitem_list_absent.
  - by apply get_list_absent.
Qed.

(** ** The "first" lookups *)

(** C4: each "first" lookup, for a key of the index, returns the requested
    attribute of the record at the lowest position among the matches of
    the key, and for a key that is not in the index returns [None]. *)
Theorem first_lookups_return_lowest_position
    (o : os) (names : list Path) (l : list unimod_data_dict) (indexed : bool)
    (unimod_name : string) (unimod_id : unimod_id_arg) :
  returns_lowest_match (name2first_mass unimod_name)
    (KStr unimod_name) mono_mass o names l indexed ∧
  returns_lowest_match (name2first_composition unimod_name)
    (KStr unimod_name) element o names l indexed ∧
  returns_lowest_match (name2first_id unimod_name)
    (KStr unimod_name) unimodID o names l indexed ∧
  returns_lowest_match (id2first_mass unimod_id)
    (KStr (normalize_id unimod_id)) mono_mass o names l indexed ∧
  returns_lowest_match (id2first_composition unimod_id)
    (KStr (normalize_id unimod_id)) element o names l indexed ∧
  returns_lowest_match (id2first_name unimod_id)
    (KStr (normalize_id unimod_id)) unimodname o names l indexed.
Proof. split_and!; apply get_first_with_store. Qed.

(** ** Ids given as integers *)

(** C8: every id-keyed lookup gives the same result for the integer [n]
    and for its string [str(n)]. *)
Theorem id_lookups_int_and_str_agree (n : Z) (s : state) :
  id2mass_list (id_int n) s = id2mass_list (id_str (pretty n)) s ∧
  id2first_mass (id_int n) s = id2first_mass (id_str (pretty n)) s ∧
  id2composition_list (id_int n) s = id2composition_list (id_str (pretty n)) s ∧
  id2first_composition (id_int n) s
  = id2first_composition (id_str (pretty n)) s ∧
  id2name_list (id_int n) s = id2name_list (id_str (pretty n)) s ∧
  id2first_name (id_int n) s = id2first_name (id_str (pretty n)) s.
Proof. by split_and!. Qed.

Example id_lookup_by_int_and_str :
  id2first_name (id_int 35) (with_store no_files [] sample_store false)
  = Ok (Some "Oxidation", with_store no_files [] sample_store true) ∧
  id2first_name (id_str "35") (with_store no_files [] sample_store false)
  = Ok (Some "Oxidation", with_store no_files [] sample_store true) ∧
  (pretty (-7)%Z : string) = "-7".
Proof. split_and!; vm_compute; reflexivity. Qed.

(** ** Equality of floats *)

Lemma SFeqb_true a b :
  SFeqb a b = true ↔
  (∃ s s', a = S754_zero s ∧ b = S754_zero s') ∨ (a = b ∧ a ≠ S754_nan).
Proof.
  unfold SFeqb. split.
  - destruct a as [s| [] | |[] m e], b as [s'| [] | |[] m' e']; simpl;
      try discriminate; try (intros _; by right); try (intros _; left; by eauto).
    + destruct (Z.compare_spec e e') as [->| |]; try discriminate.
      destruct (CompOpp (Pos.compare_cont Eq m m')) eqn:Hc; try discriminate.
      apply (f_equal CompOpp) in Hc. rewrite CompOpp_involutive in Hc.
      simpl in Hc. apply Pos.compare_eq in Hc as ->. by right.
    + destruct (Z.compare_spec e e') as [->| |]; try discriminate.
      destruct (Pos.compare_cont Eq m m') eqn:Hc; try discriminate.
      apply Pos.compare_eq in Hc as ->. by right.
  - intros [(s & s' & -> & ->)|[<- Hnan]]; [done|].
    destruct a as [s| [] | |[] m e]; simpl; try done.
    + rewrite Z.compare_refl. change (Pos.compare_cont Eq m m) with (Pos.compare m m).
      by rewrite Pos.compare_refl.
    + rewrite Z.compare_refl. change (Pos.compare_cont Eq m m) with (Pos.compare m m).
      by rewrite Pos.compare_refl.
Qed.

Lemma float_eqb_sym (x y : float) :
  PrimFloat.eqb x y = true → PrimFloat.eqb y x = true.
Proof.
  rewrite !FloatAxioms.eqb_spec, !SFeqb_true.
  intros [(s & s' & -> & ->)|[-> Hnan]]; [left; eauto|by right].
Qed.

Lemma float_eqb_trans (x y z : float) :
  PrimFloat.eqb x y = true → PrimFloat.eqb y z = true →
  PrimFloat.eqb x z = true.
Proof.
  rewrite !FloatAxioms.eqb_spec, !SFeqb_true.
  intros [(s & s' & -> & ->)|[-> Hnan]] [(t & t' & Hy & ->)|[<- Hnan']];
    try done; eauto.
Qed.

(** ** [composition2mass] *)

Lemma set_add_length s x : length s ≤ length (set_add s x).
Proof.
  unfold set_add. destruct (existsb _ _); [done|]. rewrite length_app. lia.
Qed.

Lemma foldl_set_add_length s l : length s ≤ length (foldl set_add s l).
Proof.
  revert s. induction l as [|x l IH]; intros s; simpl; [done|].
  etrans; [apply set_add_length|apply IH].
Qed.

Lemma py_set_single x l :
  length (py_set (x :: l)) = 1 ↔ Forall (λ y, same_entry y x = true) l.
Proof.
  unfold py_set. simpl. unfold set_add at 2. simpl.
  induction l as [|y l IH]; simpl.
  - split; [constructor|done].
  - unfold set_add at 2. simpl. rewrite orb_false_r.
    destruct (same_entry y x) eqn:Hy.
    + rewrite IH. split; [by constructor|]. by intros [_ ?]%Forall_cons.
    + split.
      * intros Hlen. pose proof (foldl_set_add_length ([x] ++ [y]) l) as Hge.
        simpl in Hge. lia.
      * intros [Hyx _]%Forall_cons. congruence.
Qed.

Lemma composition2mass_with_store o names l c composition :
  composition2mass composition (with_store o names l c)
  = match dict_get (KStr composition) (_initialize_mapper l) with
    | Some index_list =>
        let list_2_return :=
          omap (λ i, pair i ∘ mono_mass <$> l !! i) index_list in
        if Nat.eqb (length (py_set list_2_return)) 1 then
          match list_2_return with
          | x :: _ => Ok (Some x.2, with_store o names l true)
          | [] => Raise IndexError
          end
        else Raise AssertionError
    | None => Ok (None, with_store o names l true)
    end.
Proof.
  unfold composition2mass, mbind, M_bind. rewrite mapper_with_store.
  destruct (dict_get _ _) as [il|] eqn:Hk; [|done].
  apply dict_get_entry_ok in Hk as (_ & _ & Hlt); simpl in Hlt.
  rewrite (collect_loop _ _ _ _ mono_mass pair il [] Hlt). simpl.
  destruct (Nat.eqb _ 1); [|done]. by destruct (omap _ il).
Qed.

(** All entries collected for an index list are kept as one by the set
    exactly when no two records of the list have distinct masses. *)
Lemma py_set_single_not_more l i rest :
  Forall (λ j, j < length l) (i :: rest) →
  length (py_set (omap (λ j, pair j ∘ mono_mass <$> l !! j) (i :: rest))) = 1 →
  ¬ more_than_one_mass l (i :: rest).
Proof.
  intros Hlt. pose proof Hlt as [Hi Hrest]%Forall_cons.
  apply lookup_lt_is_Some_2 in Hi as [d Hd].
  simpl. rewrite Hd. simpl. rewrite py_set_single, Forall_forall.
  intros Hsame (a & b & da & db & Ha & Hb & Hla & Hlb & Hab & Hne).
  assert (∀ j dj, j ∈ i :: rest → l !! j = Some dj →
            j = i ∨ PrimFloat.eqb (mono_mass dj) (mono_mass d) = true) as Hhead.
  { intros j dj [->|Hj]%elem_of_cons Hlj; [by left|].
    specialize (Hsame (j, mono_mass dj)). unfold same_entry in Hsame.
    simpl in Hsame. apply orb_true_iff in Hsame as [Heq%Nat.eqb_eq|Heq]; auto.
    apply list_elem_of_omap. exists j. split; [done|]. by rewrite Hlj. }
  destruct (Hhead a da Ha Hla) as [->|Ha'], (Hhead b db Hb Hlb) as [->|Hb'].
  - done.
  - assert (da = d) as -> by congruence.
    apply float_eqb_sym in Hb'. congruence.
  - assert (db = d) as -> by congruence. congruence.
  - apply float_eqb_sym in Hb'.
    pose proof (float_eqb_trans _ _ _ Ha' Hb'). congruence.
Qed.

Lemma py_set_many_more l i rest :
  Forall (λ j, j < length l) (i :: rest) →
  length (py_set (omap (λ j, pair j ∘ mono_mass <$> l !! j) (i :: rest))) ≠ 1 →
  more_than_one_mass l (i :: rest).
Proof.
  intros Hlt. pose proof Hlt as [Hi Hrest]%Forall_cons.
  apply lookup_lt_is_Some_2 in Hi as [d Hd].
  simpl. rewrite Hd. simpl. rewrite py_set_single.
  intros Hex%not_Forall_Exists; [|intros y; apply _].
  apply Exists_exists in Hex as ([j m] & (j' & Hj & Hm)%list_elem_of_omap & Hne).
  destruct (l !! j') as [dj|] eqn:Hlj; [|done]. simpl in Hm.
  injection Hm as <- <-. unfold same_entry in Hne; simpl in Hne.
  apply not_true_is_false, orb_false_iff in Hne as [Hji%Nat.eqb_neq Hne].
  exists j', i, dj, d. split_and!; [by right|by left|done..].
Qed.

(** C6: for a composition key of the index, [composition2mass] fails its
    assertion exactly when the matched records carry more than one distinct
    mass; when they share one mass it returns that mass; for a key that is
    not in the index it returns [None]. *)
Theorem composition2mass_asserts_one_mass
    (o : os) (names : list Path) (l : list unimod_data_dict) (indexed : bool)
    (composition : string) :
  match dict_get (KStr composition) (_initialize_mapper l) with
  | Some index_list =>
      (composition2mass composition (with_store o names l indexed)
       = Raise AssertionError
       ↔ more_than_one_mass l index_list) ∧
      (¬ more_than_one_mass l index_list →
       ∃ m, composition2mass composition (with_store o names l indexed)
            = Ok (Some m, with_store o names l true) ∧
            ∀ d, d ∈ records_at l index_list →
                 mono_mass d = m ∨ PrimFloat.eqb (mono_mass d) m = true)
  | None =>
      composition2mass composition (with_store o names l indexed)
      = Ok (None, with_store o names l true)
  end.
Proof.
  rewrite composition2mass_with_store.
  destruct (dict_get _ _) as [il|] eqn:Hk; [|done].
  apply dict_get_entry_ok in Hk as (Hne & _ & Hlt); simpl in *.
  destruct il as [|i rest]; [done|].
  pose proof Hlt as [Hi Hrest]%Forall_cons.
  apply lookup_lt_is_Some_2 in Hi as [d Hd].
  destruct (Nat.eqb_spec
    (length (py_set (omap (λ j, pair j ∘ mono_mass <$> l !! j) (i :: rest)))) 1)
    as [Hone|Hmany].
  - apply py_set_single_not_more in Hone; [|done].
    simpl. rewrite Hd. simpl. split; [split; [done|]|].
    + intros Hmore. by destruct Hone.
    + intros _. exists (mono_mass d). split; [done|].
      intros d' Hd'.
      assert (∃ j, j ∈ i :: rest ∧ l !! j = Some d') as (j & Hj & Hlj).
      { apply elem_of_cons in Hd' as [->|Hd']; [exists i; split; [left|done]|].
        apply list_elem_of_omap in Hd' as (j & Hj & Hlj).
        exists j. split; [by right|done]. }
      destruct (decide (j = i)) as [->|Hji]; [left; congruence|].
      right. destruct (PrimFloat.eqb (mono_mass d') (mono_mass d)) eqn:Heq; [done|].
      destruct Hone. exists j, i, d', d. split_and!; [done|by left|done..].
  - apply py_set_many_more in Hmany; [|done]. split; [done|].
    intros Hnot. by destruct Hnot.
Qed.

Example composition2mass_one_mass :
  composition2mass "O(1)" (with_store no_files [] sample_store false)
  = Ok (Some (mono_mass oxidation), with_store no_files [] sample_store true).
Proof. vm_compute. reflexivity. Qed.

Example composition2mass_two_masses :
  composition2mass "O(1)"
    (with_store no_files []
       [oxidation; mk_data "9999" "Heavy oxygen" {[ "O" := 1%Z ]} [] 17.5%float]
       false)
  = Raise AssertionError.
Proof. vm_compute. reflexivity. Qed.

(** ** The approximate mass lookup *)

Lemma _appMass2whatever_loop {A} o names l c mass decimal_places
    (entry_key : unimod_data_dict → A) (entries : list unimod_data_dict)
    (acc : list A) :
  Forall (λ e, ∃ r, py_round (mono_mass e) decimal_places = Ok r) entries →
  for_ entries
    (λ return_list entry,
       let umass := mono_mass entry in
       rounded_umass ← lift (py_round umass decimal_places);
       if PrimFloat.leb (PrimFloat.abs (rounded_umass - mass)) epsilon then
         mret (return_list ++ [entry_key entry])
       else mret return_list)
    acc (with_store o names l c)
  = Ok (acc ++ (entry_key <$> filter (close_to mass decimal_places) entries),
        with_store o names l c).
Proof.
  revert acc. induction entries as [|e entries IH]; intros acc Hall; simpl.
  - by rewrite app_nil_r.
  - apply Forall_cons in Hall as [[r Hr] Hall].
    unfold mbind at 1, M_bind at 1. unfold mbind at 1, M_bind at 1.
    unfold lift at 1. rewrite Hr.
    assert (close_to mass decimal_places e
            = PrimFloat.leb (PrimFloat.abs (r - mass)) epsilon) as Hc.
    { unfold close_to. by rewrite Hr. }
    rewrite filter_cons.
    destruct (PrimFloat.leb _ epsilon) eqn:Hle; simpl.
    + unfold mret at 1, M_ret at 1. rewrite IH by done.
      rewrite decide_True by (by rewrite Hc). simpl. by rewrite <- app_assoc.
    + unfold mret at 1, M_ret at 1. rewrite IH by done.
      rewrite decide_False; [done|]. rewrite Hc. intros [].
Qed.

Lemma _appMass2whatever_with_store {A} o names l c mass decimal_places
    (entry_key : unimod_data_dict → A) :
  Forall (λ e, ∃ r, py_round (mono_mass e) decimal_places = Ok r) l →
  _appMass2whatever mass decimal_places entry_key (with_store o names l c)
  = Ok (entry_key <$> filter (close_to mass decimal_places) l,
        with_store o names l c).
Proof.
  intros Hall. unfold _appMass2whatever.
  unfold mbind at 1, M_bind at 1. rewrite data_list_with_store.
  by apply (_appMass2whatever_loop o names l c mass decimal_places entry_key l []).
Qed.

(** C7 (as amended): on a store whose masses round to [decimal_places]
    places without overflow, each approximate-mass lookup returns, in the
    order of the store, the requested attribute of exactly the records
    whose mass, rounded to [decimal_places] places, differs by at most
    [epsilon] from the query mass as it is given. *)
Theorem appMass_lookups_compare_with_given_mass
    (o : os) (names : list Path) (l : list unimod_data_dict) (indexed : bool)
    (mass : float) (decimal_places : Z) :
  Forall (λ e, ∃ r, py_round (mono_mass e) decimal_places = Ok r) l →
  appMass2id_list mass decimal_places (with_store o names l indexed)
  = Ok (unimodID <$> filter (close_to mass decimal_places) l,
        with_store o names l indexed) ∧
  appMass2element_list mass decimal_places (with_store o names l indexed)
  = Ok (element <$> filter (close_to mass decimal_places) l,
        with_store o names l indexed) ∧
  appMass2name_list mass decimal_places (with_store o names l indexed)
  = Ok (unimodname <$> filter (close_to mass decimal_places) l,
        with_store o names l indexed).
Proof.
  intros Hall. split_and!; by apply _appMass2whatever_with_store.
Qed.

Lemma appMass_lookups_compare_with_given_mass_witness :
  appMass2id_list 18 0 (with_store no_files [] [acetyl; fluoro] false)
  = Ok (["127"], with_store no_files [] [acetyl; fluoro] false).
Proof.
  assert (Forall (λ e, ∃ r, py_round (mono_mass e) 0 = Ok r) [acetyl; fluoro])
    as Hall.
  { repeat constructor; eexists; vm_compute; reflexivity. }
  destruct (appMass_lookups_compare_with_given_mass
              no_files [] [acetyl; fluoro] false 18 0 Hall) as (Hid & _ & _).
  rewrite Hid. vm_compute. reflexivity.
Defined.

(** For the query mass 18.3 and no decimal places the lookup finds no
    record of a store that holds Fluoro (17.990578, which rounds to 18.0),
    because 18.3 is compared as it is; against the rounded query mass 18.0
    Fluoro is a match. *)
Lemma appMass_lookup_does_not_round_query :
  appMass2name_list 18.3 0 (with_store no_files [] [acetyl; fluoro] false)
  = Ok ([], with_store no_files [] [acetyl; fluoro] false)
  ∧ appMass_rounded_query 18.3 0 unimodname [acetyl; fluoro] = ["Fluoro"].
Proof. split; vm_compute; reflexivity. Qed.

(** ** The order of strings *)

Lemma ascii_compare_lt_trans a b c :
  Ascii.compare a b = Lt → Ascii.compare b c = Lt → Ascii.compare a c = Lt.
Proof.
  unfold Ascii.compare. rewrite !N.compare_lt_iff. apply N.lt_trans.
Qed.

Lemma string_compare_lt_trans a b c :
  String.compare a b = Lt → String.compare b c = Lt → String.compare a c = Lt.
Proof.
  revert b c. induction a as [|x a IH]; intros [|y b] [|z c]; simpl; try done.
  destruct (Ascii.compare x y) eqn:Hxy, (Ascii.compare y z) eqn:Hyz; try done.
  - apply Ascii.compare_eq_iff in Hxy as ->, Hyz as ->.
    rewrite (proj2 (N.compare_eq_iff _ _) eq_refl : Ascii.compare z z = Eq).
    apply IH.
  - apply Ascii.compare_eq_iff in Hxy as ->. by rewrite Hyz.
  - apply Ascii.compare_eq_iff in Hyz as <-. by rewrite Hxy.
  - by rewrite (ascii_compare_lt_trans _ _ _ Hxy Hyz).
Qed.

Global Instance item_le_total : Total item_le.
Proof.
  intros a b. unfold item_le. rewrite (String.compare_antisym b.1 a.1).
  destruct (String.compare a.1 b.1); simpl; [lia|by left|by right].
Qed.

Global Instance item_le_trans : Transitive item_le.
Proof.
  intros a b c. unfold item_le.
  destruct (String.compare a.1 b.1) eqn:Hab; [|..|done].
  - apply String.compare_eq_iff in Hab as ->.
    destruct (String.compare b.1 c.1); [lia|done..].
  - destruct (String.compare b.1 c.1) eqn:Hbc; [|..|done]; intros _ _.
    + apply String.compare_eq_iff in Hbc as <-. by rewrite Hab.
    + by rewrite (string_compare_lt_trans _ _ _ Hab Hbc).
Qed.

Lemma string_app_assoc (a b c : string) : (a +:+ b) +:+ c = a +:+ (b +:+ c).
Proof.
  induction a as [|x a IH]; [done|].
  change (String x ((a +:+ b) +:+ c) = String x (a +:+ (b +:+ c))). by f_equal.
Qed.

Lemma string_app_empty_r (a : string) : a +:+ "" = a.
Proof.
  induction a as [|x a IH]; [done|].
  change (String x (a +:+ "") = String x a). by f_equal.
Qed.

(** ** The canonical composition string *)

Lemma sorted_items_elem_of d symbol number :
  (symbol, number) ∈ sorted_items d ↔ d !! symbol = Some number.
Proof.
  unfold sorted_items. rewrite merge_sort_Permutation.
  apply elem_of_map_to_list.
Qed.

Lemma sorted_items_symbol_lt d : StronglySorted symbol_lt (sorted_items d).
Proof.
  assert (NoDup (sorted_items d).*1) as Hnodup.
  { unfold sorted_items. rewrite merge_sort_Permutation.
    apply NoDup_fst_map_to_list. }
  assert (StronglySorted item_le (sorted_items d)) as Hsorted.
  { apply StronglySorted_merge_sort; apply _. }
  induction Hsorted as [|a l Hs IH Hall]; [constructor|].
  rewrite fmap_cons in Hnodup. apply NoDup_cons in Hnodup as [Hnotin Hnodup].
  constructor; [by apply IH|].
  rewrite Forall_forall in Hall |- *. intros b Hb.
  specialize (Hall b Hb). unfold item_le in Hall. unfold symbol_lt.
  destruct (String.compare a.1 b.1) eqn:Hab; [|done..].
  apply String.compare_eq_iff in Hab. destruct Hnotin. rewrite Hab.
  by apply list_elem_of_fmap_2.
Qed.

Lemma StronglySorted_filter {A} (R : relation A) (P : A → Prop)
    `{∀ x, Decision (P x)} (l : list A) :
  StronglySorted R l → StronglySorted R (filter P l).
Proof.
  induction 1 as [|a l Hs IH Hall]; [constructor|].
  rewrite filter_cons. destruct (decide (P a)); [|done].
  constructor; [done|]. rewrite Forall_forall in Hall |- *.
  intros b [_ Hb]%list_elem_of_filter. by apply Hall.
Qed.

Lemma foldl_render (h : string) (items : list (string * Z)) :
  foldl (λ hill '(symbol, number),
           if bool_decide (symbol ∈ MAJORS) then hill
           else hill +:+ format_element symbol number) h items
  = h +:+ render (filter (λ item, item.1 ∉ MAJORS) items).
Proof.
  revert h. induction items as [|[symbol number] items IH]; intros h; simpl.
  - by rewrite string_app_empty_r.
  - rewrite IH, filter_cons. simpl.
    destruct (decide (symbol ∈ MAJORS)) as [Hin|Hnotin].
    + rewrite bool_decide_true by done. by rewrite decide_False by auto.
    + rewrite bool_decide_false by done. rewrite decide_True by done.
      simpl. by rewrite string_app_assoc.
Qed.

(** The majors come first, carbon before hydrogen, then the other symbols
    in ascending order. *)
Lemma hill_notation_render (d : gmap string Z) :
  ∃ rest,
    StronglySorted symbol_lt rest ∧
    (∀ symbol number,
       (symbol, number) ∈ rest ↔
       d !! symbol = Some number ∧ symbol ≠ "C" ∧ symbol ≠ "H") ∧
    hill_notation d
    = render (option_list (pair "C" <$> d !! "C")
              ++ option_list (pair "H" <$> d !! "H") ++ rest).
Proof.
  exists (filter (λ item, item.1 ∉ MAJORS) (sorted_items d)). split_and!.
  - apply StronglySorted_filter, sorted_items_symbol_lt.
  - intros symbol number. rewrite list_elem_of_filter, sorted_items_elem_of.
    unfold MAJORS. simpl. rewrite !not_elem_of_cons. split.
    + by intros [(HC & HH & _) Hd].
    + intros (Hd & HC & HH). split; [|done].
      split_and!; [done..|apply not_elem_of_nil].
  - unfold hill_notation. rewrite foldl_render. simpl.
    destruct (d !! "C") as [c|], (d !! "H") as [h|]; simpl;
      rewrite ?string_app_assoc, ?string_app_empty_r; try done.
Qed.

(** ** What [_parseXML] leaves out: elements with a count of zero *)

Lemma update_tmp_Forall (P : tmp_dict → Prop) f p p' :
  (∀ t, P t → P (f t)) →
  update_tmp f p = Ok p' → Forall P (objects p) → Forall P (objects p').
Proof.
  intros Hf. unfold update_tmp. destruct (tmp p) as [r|]; [|done].
  intros [= <-] Hall. simpl. apply Forall_alter; auto.
Qed.

Lemma parse_event_nonzero st ev st' :
  parse_event st ev = Ok st' →
  Forall (λ t, nonzero_counts (tmp_element t)) (objects st.1) →
  Forall (λ t, nonzero_counts (tmp_element t)) (objects st'.1).
Proof.
  destruct st as [p collect_element]. unfold parse_event.
  destruct ev as [record_id title|m|symbol number|site classification| | | |];
    simpl.
  - intros [= <-] Hall. simpl. apply Forall_app. split; [done|].
    repeat constructor. intros symbol number. simpl.
    by rewrite lookup_empty.
  - intros (p' & Hp & [= <-])%result_bind_Ok. simpl.
    apply (update_tmp_Forall _ (set_mono_mass m) p p'); [|done].
    intros t Ht. exact Ht.
  - destruct collect_element; [|by intros [= <-]].
    case_bool_decide as Hnumber; [|by intros [= <-]].
    intros (p' & Hp & [= <-])%result_bind_Ok. simpl.
    apply (update_tmp_Forall _ (set_element symbol number) p p'); [|done].
    intros t Ht s n. simpl. rewrite lookup_insert.
    case_decide as Hs; [by intros [= <-]|apply Ht].
  - case_bool_decide; [|by intros [= <-]].
    intros (p' & Hp & [= <-])%result_bind_Ok. simpl.
    apply (update_tmp_Forall _ (append_specificity (site, classification)) p p');
      [|done].
    intros t Ht. exact Ht.
  - by intros [= <-].
  - destruct (tmp p); [|done]. by intros [= <-].
  - by intros [= <-].
  - by intros [= <-].
Qed.

Lemma parse_events_nonzero events st st' :
  for_ events parse_event st = Ok st' →
  Forall (λ t, nonzero_counts (tmp_element t)) (objects st.1) →
  Forall (λ t, nonzero_counts (tmp_element t)) (objects st'.1).
Proof.
  revert st. induction events as [|ev events IH]; intros st; simpl.
  - by intros [= <-].
  - intros (st1 & Hev & Hrest)%result_bind_Ok Hall.
    eapply IH; [done|]. by eapply parse_event_nonzero.
Qed.

Lemma parse_file_nonzero o p xml_file p' :
  parse_file o p xml_file = Ok p' →
  Forall (λ t, nonzero_counts (tmp_element t)) (objects p) →
  Forall (λ t, nonzero_counts (tmp_element t)) (objects p').
Proof.
  unfold parse_file. destruct (read_file o xml_file) as [events|].
  - intros (st & Hst & [= <-])%result_bind_Ok.
    by apply (parse_events_nonzero _ _ _ Hst).
  - destruct (String.eqb _ "unimod.xml"); [done|].
    destruct (String.eqb _ "usermod.xml"); [|done]. by intros [= <-].
Qed.

Lemma parse_files_nonzero o xml_file_list p p' :
  for_ xml_file_list (parse_file o) p = Ok p' →
  Forall (λ t, nonzero_counts (tmp_element t)) (objects p) →
  Forall (λ t, nonzero_counts (tmp_element t)) (objects p').
Proof.
  revert p. induction xml_file_list as [|f fs IH]; intros p; simpl.
  - by intros [= <-].
  - intros (p1 & Hf & Hrest)%result_bind_Ok Hall.
    eapply IH; [done|]. by eapply parse_file_nonzero.
Qed.

Lemma mapM_result_Ok {A B} (f : A → result B) (l : list A) (k : list B) :
  mapM f l = Ok k → Forall2 (λ x y, f x = Ok y) l k.
Proof.
  revert k. induction l as [|x l IH]; intros k; simpl.
  - intros [= <-]. constructor.
  - intros (y & Hy & (k' & Hk' & [= <-])%result_bind_Ok)%result_bind_Ok.
    constructor; [done|]. by apply IH.
Qed.

Lemma _parseXML_nonzero o xml_file_list data_list d :
  _parseXML o xml_file_list = Ok data_list → d ∈ data_list →
  nonzero_counts (element d).
Proof.
  unfold _parseXML, parse_files.
  intros (p & Hp & Hmap%mapM_result_Ok)%result_bind_Ok Hd.
  apply parse_files_nonzero in Hp; [|constructor].
  apply list_elem_of_lookup in Hd as [i Hi].
  destruct (Forall2_lookup_r _ _ _ _ _ Hmap Hi) as (r & _ & Hr).
  unfold deref in Hr. destruct (objects p !! r) as [t|] eqn:Ht; [|done].
  unfold to_data in Hr. destruct (tmp_mono_mass t); [|done].
  injection Hr as <-. simpl.
  rewrite Forall_forall in Hp. apply Hp. by eapply list_elem_of_lookup_2.
Qed.

(** ** The keys of the index *)

Lemma dict_keys_register k value index mapper :
  k ∈ dict_keys (register value index mapper) →
  k = value ∨ k ∈ dict_keys mapper.
Proof.
  unfold dict_keys. induction mapper as [|[k' l] rest IH]; simpl.
  - intros ->%list_elem_of_singleton. by left.
  - destruct (key_eqb k' value); simpl; [by right|].
    intros [->|Hin]%elem_of_cons; [right; left|].
    destruct (IH Hin) as [->|?]; [by left|right; by right].
Qed.

Lemma dict_keys_register_record k index d mapper :
  k ∈ dict_keys (register_record index d mapper) →
  k ∈ record_keys d ∨ k ∈ dict_keys mapper.
Proof.
  unfold register_record, record_keys.
  intros [->|[->|[->|[->|?]%dict_keys_register]%dict_keys_register
           ]%dict_keys_register]%dict_keys_register; [left..|by right].
  - do 3 right. left.
  - do 2 right. left.
  - right. left.
  - left.
Qed.

Lemma dict_keys__initialize_mapper k l :
  k ∈ dict_keys (_initialize_mapper l) → ∃ d, d ∈ l ∧ k ∈ record_keys d.
Proof.
  induction l as [|d l IH] using rev_ind.
  - by intros ?%elem_of_nil.
  - rewrite _initialize_mapper_snoc.
    intros [Hk|Hk]%dict_keys_register_record.
    + exists d. split; [|done]. apply elem_of_app. right. left.
    + destruct (IH Hk) as (d' & Hd' & Hk'). exists d'. split; [|done].
      apply elem_of_app. by left.
Qed.

Lemma dict_get_register_same k index mapper :
  key_eqb k k = true →
  ∃ index_list, dict_get k (register k index mapper) = Some index_list
                ∧ index ∈ index_list.
Proof.
  intros Hk. induction mapper as [|[k' l] rest IH]; simpl.
  - rewrite Hk. exists [index]. split; [done|left].
  - destruct (key_eqb k' k) eqn:Hk'; simpl; rewrite Hk'; [|done].
    exists (l ++ [index]). split; [done|]. apply elem_of_app. right. left.
Qed.

Lemma dict_get_register_mono k value index mapper index_list :
  dict_get k mapper = Some index_list →
  ∃ index_list', dict_get k (register value index mapper) = Some index_list'
                 ∧ index_list ⊆ index_list'.
Proof.
  induction mapper as [|[k' l] rest IH]; simpl; [done|].
  destruct (key_eqb k' k) eqn:Hk'.
  - intros [= ->]. destruct (key_eqb k' value); simpl; rewrite Hk'.
    + exists (index_list ++ [index]). split; [done|].
      intros i Hi. apply elem_of_app. by left.
    + by exists index_list.
  - intros Hget. destruct (key_eqb k' value); simpl; rewrite Hk'.
    + by exists index_list.
    + by apply IH.
Qed.

Lemma dict_get_register_record_mono k index d mapper index_list :
  dict_get k mapper = Some index_list →
  ∃ index_list', dict_get k (register_record index d mapper) = Some index_list'
                 ∧ index_list ⊆ index_list'.
Proof.
  intros H0. unfold register_record.
  destruct (dict_get_register_mono k (KStr (unimodID d)) index _ _ H0)
    as (l1 & H1 & Hs1).
  destruct (dict_get_register_mono k (KStr (unimodname d)) index _ _ H1)
    as (l2 & H2 & Hs2).
  destruct (dict_get_register_mono k (KStr (hill_notation (element d))) index _ _ H2)
    as (l3 & H3 & Hs3).
  destruct (dict_get_register_mono k (KFloat (mono_mass d)) index _ _ H3)
    as (l4 & H4 & Hs4).
  exists l4. split; [done|]. by repeat (etrans; [|done]).
Qed.

Lemma dict_get_register_record_same k index d mapper :
  k ∈ record_keys d → key_eqb k k = true →
  ∃ index_list, dict_get k (register_record index d mapper) = Some index_list
                ∧ index ∈ index_list.
Proof.
  unfold record_keys, register_record. intros Hk Hrefl.
  repeat (apply elem_of_cons in Hk as [->|Hk]); [..|by apply elem_of_nil in Hk].
  - destruct (dict_get_register_same (KStr (unimodID d)) index mapper Hrefl)
      as (l1 & H1 & Hi1).
    destruct (dict_get_register_mono _ (KStr (unimodname d)) index _ _ H1)
      as (l2 & H2 & Hs2).
    destruct (dict_get_register_mono _ (KStr (hill_notation (element d))) index _ _ H2)
      as (l3 & H3 & Hs3).
    destruct (dict_get_register_mono _ (KFloat (mono_mass d)) index _ _ H3)
      as (l4 & H4 & Hs4).
    exists l4. split; [done|]. auto.
  - destruct (dict_get_register_same (KStr (unimodname d)) index
                (register (KStr (unimodID d)) index mapper) Hrefl)
      as (l2 & H2 & Hi2).
    destruct (dict_get_register_mono _ (KStr (hill_notation (element d))) index _ _ H2)
      as (l3 & H3 & Hs3).
    destruct (dict_get_register_mono _ (KFloat (mono_mass d)) index _ _ H3)
      as (l4 & H4 & Hs4).
    exists l4. split; [done|]. auto.
  - destruct (dict_get_register_same (KStr (hill_notation (element d))) index
                (register (KStr (unimodname d)) index
                   (register (KStr (unimodID d)) index mapper)) Hrefl)
      as (l3 & H3 & Hi3).
    destruct (dict_get_register_mono _ (KFloat (mono_mass d)) index _ _ H3)
      as (l4 & H4 & Hs4).
    exists l4. split; [done|]. auto.
  - apply (dict_get_register_same (KFloat (mono_mass d)) index _ Hrefl).
Qed.

(** A record of the store is found under each of its keys that equals
    itself (every key but a NaN mass). *)
Lemma record_registered l i d k :
  l !! i = Some d → k ∈ record_keys d → key_eqb k k = true →
  ∃ index_list, dict_get k (_initialize_mapper l) = Some index_list
                ∧ i ∈ index_list.
Proof.
  revert i. induction l as [|x l IH] using rev_ind; intros i Hi Hk Hrefl.
  - done.
  - rewrite _initialize_mapper_snoc.
    destruct (decide (i < length l)) as [Hlt|Hge].
    + rewrite lookup_app_l in Hi by done.
      destruct (IH i Hi Hk Hrefl) as (il & Hget & Hin).
      destruct (dict_get_register_record_mono k (length l) x _ _ Hget)
        as (il' & Hget' & Hsub).
      exists il'. split; [done|]. by apply Hsub.
    + rewrite lookup_app_r in Hi by lia.
      destruct (i - length l) as [|n] eqn:Hn; [|by destruct n].
      injection Hi as ->. assert (i = length l) as -> by lia.
      by apply dict_get_register_record_same.
Qed.

Example _parseXML_sample :
  _parseXML sample_os [usermod_xml; unimod_xml] = Ok [carbamidomethyl].
Proof. vm_compute. reflexivity. Qed.

(** C5: for every record of a parsed store, the composition holds no
    count of zero; its canonical string writes carbon first, then
    hydrogen, then the other elements in ascending order of their symbols,
    each as [Symbol(count)]; the record is registered in the index under
    that string; and every key of the index is the id, the name, the
    canonical string or the mass of a record, so neither the composition
    itself nor the specificity is a key. *)
Theorem canonical_composition_string_key
    (o : os) (xml_file_list : list Path) (data_list : list unimod_data_dict)
    (i : nat) (d : unimod_data_dict) :
  _parseXML o xml_file_list = Ok data_list →
  data_list !! i = Some d →
  nonzero_counts (element d) ∧
  (∃ rest,
     StronglySorted symbol_lt rest ∧
     (∀ symbol number,
        (symbol, number) ∈ rest ↔
        element d !! symbol = Some number ∧ symbol ≠ "C" ∧ symbol ≠ "H") ∧
     hill_notation (element d)
     = render (option_list (pair "C" <$> element d !! "C")
               ++ option_list (pair "H" <$> element d !! "H") ++ rest)) ∧
  (∃ index_list,
     dict_get (KStr (hill_notation (element d))) (_initialize_mapper data_list)
     = Some index_list ∧ i ∈ index_list) ∧
  (∀ k, k ∈ dict_keys (_initialize_mapper data_list) →
        ∃ d', d' ∈ data_list ∧ k ∈ record_keys d').
Proof.
  intros Hparse Hd. split_and!.
  - eapply _parseXML_nonzero; [done|]. by eapply list_elem_of_lookup_2.
  - apply hill_notation_render.
  - apply (record_registered data_list i d); [done|..].
    + unfold record_keys. do 2 right. left.
    + simpl. apply String.eqb_refl.
  - intros k. apply dict_keys__initialize_mapper.
Qed.

Lemma canonical_composition_string_key_witness :
  hill_notation (element carbamidomethyl) = "C(2)H(3)N(1)O(1)" ∧
  nonzero_counts (element carbamidomethyl) ∧
  ∃ index_list,
    dict_get (KStr (hill_notation (element carbamidomethyl)))
             (_initialize_mapper [carbamidomethyl]) = Some index_list
    ∧ 0 ∈ index_list.
Proof.
  destruct (canonical_composition_string_key
              sample_os [usermod_xml; unimod_xml] [carbamidomethyl] 0
              carbamidomethyl) as (Hnonzero & _ & Hreg & _).
  - vm_compute. reflexivity.
  - reflexivity.
  - split_and!; [vm_compute; reflexivity|exact Hnonzero|exact Hreg].
Defined.

(** ** The reconciler *)

Lemma get_first_with_store_head {A} o names l c k
    (return_key : unimod_data_dict → A) :
  get_first k return_key (with_store o names l c)
  = Ok (return_key <$> (index_list ← dict_get k (_initialize_mapper l);
                        i ← head index_list; l !! i),
        with_store o names l true).
Proof.
  unfold get_first, mbind at 1 2, M_bind at 1 2.
  rewrite mapper_with_store.
  destruct (dict_get k (_initialize_mapper l)) as [il|] eqn:Hk; [|done].
  rewrite mapper_with_store, Hk.
  pose proof (dict_get_entry_ok _ _ _ Hk) as (Hne & Hs & Hlt); simpl in *.
  destruct il as [|i il]; [done|].
  unfold mbind at 1, M_bind at 1. unfold lift.
  rewrite (py_min_sorted _ _ Hs). simpl.
  apply Forall_cons in Hlt as [Hi _].
  apply lookup_lt_is_Some_2 in Hi as [d Hd].
  unfold mbind at 1, M_bind at 1.
  rewrite _data_list_2_value_with_store, Hd. done.
Qed.

Lemma resolve_request_with_store pc o names l c req :
  resolve_request pc req (with_store o names l c)
  = Ok (resolution pc l req, with_store o names l true).
Proof.
  unfold resolve_request, resolution. destruct (req_key req) as [name|unimod_id].
  - unfold mbind at 1, M_bind at 1. rewrite get_list_with_store.
    destruct (dict_get _ _) as [il|]; simpl; [|done].
    by rewrite list_fmap_id.
  - rewrite get_first_with_store_head.
    by destruct (_ ≫= _) as [d|].
Qed.

Lemma map_mods_loop pc nl o names l entries acc c :
  ∃ c',
    for_ entries
      (λ rdict '(index, req),
         found ← resolve_request pc req;
         match found with
         | None => mret rdict
         | Some d =>
             let m := mapped_modification nl index req d in
             match req_type req with
             | fixed =>
                 mret (mk_reconciled (fixed_mods rdict ++ [m]) (variable_mods rdict))
             | variable =>
                 mret (mk_reconciled (fixed_mods rdict) (variable_mods rdict ++ [m]))
             end
         end)
      acc (with_store o names l c)
    = Ok (mk_reconciled
            (fixed_mods acc ++ omap (mapped_of_type pc nl l fixed) entries)
            (variable_mods acc ++ omap (mapped_of_type pc nl l variable) entries),
          with_store o names l c').
Proof.
  revert acc c. induction entries as [|[i req] entries IH]; intros acc c.
  - exists c. simpl. rewrite !app_nil_r. by destruct acc.
  - assert (∀ t, mapped_of_type pc nl l t (i, req)
                 = if decide (req_type req = t)
                   then mapped_modification nl i req <$> resolution pc l req
                   else None) as Hmapped by done.
    simpl. unfold mbind at 1, M_bind at 1. unfold mbind at 1, M_bind at 1.
    rewrite resolve_request_with_store, !Hmapped.
    destruct (resolution pc l req) as [d|] eqn:Hres; simpl.
    + destruct (req_type req) eqn:Ht.
      * destruct (IH (mk_reconciled
                        (fixed_mods acc ++ [mapped_modification nl i req d])
                        (variable_mods acc)) true) as [c' Hc'].
        exists c'. etrans; [exact Hc'|]. simpl. by rewrite <- app_assoc.
      * destruct (IH (mk_reconciled (fixed_mods acc)
                        (variable_mods acc ++ [mapped_modification nl i req d]))
                     true) as [c' Hc'].
        exists c'. etrans; [exact Hc'|]. simpl. by rewrite <- app_assoc.
    + destruct (IH acc true) as [c' Hc'].
      exists c'. etrans; [exact Hc'|]. by destruct (decide _), (decide _).
Qed.

Lemma map_mods_with_store pc nl o names l c mod_list :
  ∃ c',
    map_mods pc nl mod_list (with_store o names l c)
    = Ok (mk_reconciled
            (omap (mapped_of_type pc nl l fixed) (enumerate mod_list))
            (omap (mapped_of_type pc nl l variable) (enumerate mod_list)),
          with_store o names l c').
Proof.
  destruct (map_mods_loop pc nl o names l (enumerate mod_list)
              (mk_reconciled [] []) c) as [c' Hloop].
  exists c'. apply Hloop.
Qed.

Lemma elem_of_enumerate {A} (l : list A) i x :
  (i, x) ∈ enumerate l ↔ l !! i = Some x.
Proof.
  unfold enumerate. rewrite elem_of_lookup_imap. split.
  - by intros (j & y & [= -> ->] & Hl).
  - intros Hl. by exists i, x.
Qed.

Lemma elem_of_mapped pc nl l t mod_list m :
  m ∈ omap (mapped_of_type pc nl l t) (enumerate mod_list) ↔
  ∃ i req d, mod_list !! i = Some req ∧ req_type req = t ∧
             resolution pc l req = Some d ∧
             m = mapped_modification nl i req d.
Proof.
  rewrite list_elem_of_omap. unfold mapped_of_type. split.
  - intros ([i req] & Hin%elem_of_enumerate & Hm). simpl in Hm.
    destruct (decide (req_type req = t)) as [Ht|]; [|done].
    destruct (resolution pc l req) as [d|] eqn:Hres; [|done].
    injection Hm as <-. by exists i, req, d.
  - intros (i & req & d & Hl & Ht & Hres & ->). exists (i, req).
    split; [by apply elem_of_enumerate|]. simpl.
    rewrite decide_True by done. by rewrite Hres.
Qed.

Lemma mapped_sorted_from pc nl l t mod_list n :
  StronglySorted (λ a b, _id a < _id b)
    (omap (mapped_of_type pc nl l t) (imap (λ i, pair (n + i)) mod_list))
  ∧ Forall (λ m, n ≤ _id m)
      (omap (mapped_of_type pc nl l t) (imap (λ i, pair (n + i)) mod_list)).
Proof.
  revert n. induction mod_list as [|req mod_list IH]; intros n; simpl.
  - split; constructor.
  - destruct (IH (S n)) as [Hs Hge].
    assert (imap ((λ i, pair (n + i)) ∘ S) mod_list
            = imap (λ i, pair (S n + i)) mod_list) as ->.
    { apply imap_ext. intros i x _. simpl. f_equal. lia. }
    assert (Forall (λ m, n ≤ _id m)
              (omap (mapped_of_type pc nl l t)
                 (imap (λ i, pair (S n + i)) mod_list))) as Hge'.
    { eapply Forall_impl; [exact Hge|]. intros; simpl in *; lia. }
    destruct (mapped_of_type pc nl l t (n + 0, req)) as [m|] eqn:Hm; [|done].
    assert (_id m = n) as Hid.
    { unfold mapped_of_type in Hm. simpl in Hm. destruct (decide _); [|done].
      destruct (resolution _ _ _); [|done]. injection Hm as <-. simpl. lia. }
    split.
    + constructor; [done|]. eapply Forall_impl; [exact Hge|].
      intros; simpl in *; lia.
    + constructor; [lia|done].
Qed.

Lemma mapped_sorted pc nl l t mod_list :
  StronglySorted (λ a b, _id a < _id b)
    (omap (mapped_of_type pc nl l t) (enumerate mod_list)).
Proof. apply (mapped_sorted_from pc nl l t mod_list 0). Qed.

Lemma resolution_name_absent pc l req name :
  req_key req = by_name name →
  dict_get (KStr name) (_initialize_mapper l) = None →
  resolution pc l req = None.
Proof. intros Hkey Hget. unfold resolution. by rewrite Hkey, Hget. Qed.

Lemma scenario_resolutions pc :
  pc "any" oxidation = true →
  pc "any" carbamidomethyl = true →
  pc "Prot-N-term" acetyl = true →
  resolution pc sample_store request_oxidation = Some oxidation ∧
  resolution pc sample_store request_carbamidomethyl = Some carbamidomethyl ∧
  resolution pc sample_store request_acetyl = Some acetyl.
Proof.
  intros Hox Hcm Hac.
  assert (dict_get (KStr "Oxidation") (_initialize_mapper sample_store) = Some [2])
    as Hget_ox by (vm_compute; reflexivity).
  assert (dict_get (KStr "Carbamidomethyl") (_initialize_mapper sample_store)
          = Some [1]) as Hget_cm by (vm_compute; reflexivity).
  assert (dict_get (KStr "Acetyl") (_initialize_mapper sample_store) = Some [0])
    as Hget_ac by (vm_compute; reflexivity).
  unfold resolution. simpl. rewrite Hget_ox, Hget_cm, Hget_ac. simpl.
  unfold site_matches. simpl. by rewrite Hox, Hcm, Hac.
Qed.

(** C1: on every request list [map_mods] returns the resolved requests in
    two lists, a request in the list of its type, each list in the order
    of the input, each result with [_id] the position of its request,
    [org] the request itself and [unimod] true; the three requests of the
    scenario, on a dataset of the three records they name, give
    Carbamidomethyl (1) as fixed and Oxidation (0), Acetyl (2) as
    variable. *)
Theorem map_mods_partitions_and_annotates
    (position_corresponds : string → unimod_data_dict → bool)
    (dataset_neutral_loss : unimod_data_dict → string → option string)
    (o : os) (names : list Path) (l : list unimod_data_dict) (indexed : bool)
    (mod_list : list ModificationRequest) :
  (∃ rdict indexed',
     map_mods position_corresponds dataset_neutral_loss mod_list
       (with_store o names l indexed)
     = Ok (rdict, with_store o names l indexed') ∧
     (∀ m, m ∈ fixed_mods rdict ↔
           ∃ i req d, mod_list !! i = Some req ∧ req_type req = fixed ∧
                      resolution position_corresponds l req = Some d ∧
                      m = mapped_modification dataset_neutral_loss i req d) ∧
     (∀ m, m ∈ variable_mods rdict ↔
           ∃ i req d, mod_list !! i = Some req ∧ req_type req = variable ∧
                      resolution position_corresponds l req = Some d ∧
                      m = mapped_modification dataset_neutral_loss i req d) ∧
     (∀ m, m ∈ fixed_mods rdict ++ variable_mods rdict →
           mod_list !! _id m = Some (org m) ∧ unimod m = true) ∧
     StronglySorted (λ a b, _id a < _id b) (fixed_mods rdict) ∧
     StronglySorted (λ a b, _id a < _id b) (variable_mods rdict)) ∧
  (position_corresponds "any" oxidation = true →
   position_corresponds "any" carbamidomethyl = true →
   position_corresponds "Prot-N-term" acetyl = true →
   ∃ indexed',
     map_mods position_corresponds dataset_neutral_loss scenario_requests
       (with_store o names sample_store indexed)
     = Ok (scenario_result, with_store o names sample_store indexed')).
Proof.
  split.
  - destruct (map_mods_with_store position_corresponds dataset_neutral_loss
                o names l indexed mod_list) as [c' Hrun].
    eexists _, c'. split; [exact Hrun|]. simpl. split_and!.
    + intros m. apply elem_of_mapped.
    + intros m. apply elem_of_mapped.
    + intros m [Hm|Hm]%elem_of_app;
        apply elem_of_mapped in Hm as (i & req & d & Hl & _ & _ & ->); done.
    + apply mapped_sorted.
    + apply mapped_sorted.
  - intros Hox Hcm Hac.
    destruct (map_mods_with_store position_corresponds dataset_neutral_loss
                o names sample_store indexed scenario_requests) as [c' Hrun].
    exists c'. rewrite Hrun. f_equal. f_equal.
    destruct (scenario_resolutions _ Hox Hcm Hac) as (Rox & Rcm & Rac).
    unfold scenario_result, scenario_requests, enumerate, mapped_of_type.
    simpl. rewrite Rox, Rcm, Rac. reflexivity.
Qed.

Lemma map_mods_partitions_and_annotates_witness :
  ∃ indexed',
    map_mods (λ _ _, true) (λ _ _, None) scenario_requests
      (with_store no_files [] sample_store false)
    = Ok (scenario_result, with_store no_files [] sample_store indexed').
Proof.
  apply (map_mods_partitions_and_annotates (λ _ _, true) (λ _ _, None)
           no_files [] sample_store false scenario_requests); reflexivity.
Defined.

(** C2: [map_mods] raises on no request list; a request that resolves to
    no record has no result in either list, so that its position is
    missing among the [_id]s; when no request resolves both lists are
    empty, as for the requests that name the unknown "Yadailation". *)
Theorem map_mods_drops_unresolved
    (position_corresponds : string → unimod_data_dict → bool)
    (dataset_neutral_loss : unimod_data_dict → string → option string)
    (o : os) (names : list Path) (l : list unimod_data_dict) (indexed : bool)
    (mod_list : list ModificationRequest) :
  (∃ rdict indexed',
     map_mods position_corresponds dataset_neutral_loss mod_list
       (with_store o names l indexed)
     = Ok (rdict, with_store o names l indexed') ∧
     (∀ i req, mod_list !! i = Some req →
               resolution position_corresponds l req = None →
               ∀ m, m ∈ fixed_mods rdict ++ variable_mods rdict → _id m ≠ i) ∧
     ((∀ req, req ∈ mod_list → resolution position_corresponds l req = None) →
      rdict = mk_reconciled [] [])) ∧
  (∃ indexed',
     map_mods position_corresponds dataset_neutral_loss requests_not_in_unimod
       (with_store o names sample_store indexed)
     = Ok (mk_reconciled [] [], with_store o names sample_store indexed')).
Proof.
  assert (∀ l mod_list,
            (∀ req, req ∈ mod_list →
                    resolution position_corresponds l req = None) →
            ∀ t, omap (mapped_of_type position_corresponds dataset_neutral_loss l t)
                      (enumerate mod_list) = []) as Hnone.
  { intros l' reqs Hall t.
    destruct (omap _ _) as [|m ms] eqn:Hm; [done|].
    assert (m ∈ omap (mapped_of_type position_corresponds dataset_neutral_loss l' t)
                     (enumerate reqs)) as Hin by (rewrite Hm; left).
    apply elem_of_mapped in Hin as (i & req & d & Hl & _ & Hres & _).
    rewrite Hall in Hres; [done|]. by eapply list_elem_of_lookup_2. }
  split.
  - destruct (map_mods_with_store position_corresponds dataset_neutral_loss
                o names l indexed mod_list) as [c' Hrun].
    eexists _, c'. split; [exact Hrun|]. simpl. split.
    + intros i req Hl Hres m [Hm|Hm]%elem_of_app;
        apply elem_of_mapped in Hm as (j & req' & d & Hl' & _ & Hres' & ->);
        simpl; intros ->; congruence.
    + intros Hall. by rewrite !Hnone.
  - destruct (map_mods_with_store position_corresponds dataset_neutral_loss
                o names sample_store indexed requests_not_in_unimod)
      as [c' Hrun].
    exists c'. rewrite Hrun. rewrite !Hnone; [done|..];
      intros req Hreq; unfold requests_not_in_unimod in Hreq;
      repeat (apply elem_of_cons in Hreq as [->|Hreq]);
      try (by apply elem_of_nil in Hreq);
      by apply (resolution_name_absent _ _ _ "Yadailation");
        [done|vm_compute].
Qed.

(** ** Reading back what [writeXML] wrote *)

Lemma foldl_insert_nonzero_lookup (items : list (string * Z)) symbol number :
  NoDup items.*1 →
  foldl insert_nonzero ∅ items !! symbol = Some number ↔
  (symbol, number) ∈ items ∧ number ≠ 0%Z.
Proof.
  induction items as [|[s n] items IH] using rev_ind; intros Hnodup.
  - simpl. rewrite lookup_empty. split; [done|]. by intros [?%elem_of_nil _].
  - rewrite fmap_app in Hnodup. apply NoDup_app in Hnodup as (Hnodup & Hnotin & _).
    rewrite foldl_app. simpl. unfold insert_nonzero at 1. simpl.
    rewrite elem_of_app, list_elem_of_singleton.
    assert (∀ v, (s, v) ∉ items) as Hs.
    { intros v Hv. apply (Hnotin s); [|left].
      by apply (list_elem_of_fmap_2 fst _ (s, v)). }
    case_bool_decide as Hn.
    + rewrite lookup_insert. case_decide as Hsym.
      * subst symbol. split.
        -- intros [= <-]. split; [by right|done].
        -- intros [[Hin|[= ->]] _]; [by apply Hs in Hin|done].
      * rewrite (IH Hnodup). split.
        -- intros [Hin Hne]. split; [by left|done].
        -- intros [[Hin|[= -> ->]] Hne]; [done|congruence].
    + rewrite (IH Hnodup). split.
      * intros [Hin Hne]. split; [by left|done].
      * intros [[Hin|[= -> ->]] Hne]; [done|]. by destruct Hn.
Qed.

Lemma foldl_insert_nonzero_map_to_list (composition : gmap string Z) :
  foldl insert_nonzero ∅ (map_to_list composition)
  = without_zero_counts composition.
Proof.
  apply map_eq. intros symbol. apply option_eq. intros number.
  rewrite foldl_insert_nonzero_lookup by apply NoDup_fst_map_to_list.
  unfold without_zero_counts. rewrite map_lookup_filter_Some.
  by rewrite elem_of_map_to_list.
Qed.

Lemma alter_last {A} (f : A → A) (l : list A) (x : A) :
  alter f (length l) (l ++ [x]) = l ++ [f x].
Proof.
  rewrite <- (Nat.add_0_r (length l)) at 1. by rewrite alter_app_r.
Qed.

(** The elements of a delta, with [tmp] the last dict made. *)
Lemma parse_written_elements objs refs t (items : list (string * Z)) :
  for_ (flat_map (λ '(symbol, number), [start_element symbol number; end_other])
                 items)
       parse_event
       (mk_parser (objs ++ [t]) (Some (length objs)) refs, true)
  = Ok (mk_parser
          (objs ++ [mk_tmp (tmp_unimodID t) (tmp_unimodname t)
                           (foldl insert_nonzero (tmp_element t) items)
                           (tmp_specificity t) (tmp_mono_mass t)])
          (Some (length objs)) refs, true).
Proof.
  revert t. induction items as [|[symbol number] items IH]; intros t.
  - simpl. by destruct t.
  - cbn [flat_map app for_]. unfold parse_event at 1.
    unfold insert_nonzero at 1. simpl.
    case_bool_decide as Hn.
    + unfold update_tmp. simpl. rewrite alter_last. simpl. apply IH.
    + simpl. apply IH.
Qed.

Lemma parse_written_head id name m p collect_element :
  for_ [start_mod (Some id) name; start_delta m] parse_event (p, collect_element)
  = Ok (mk_parser (objects p ++ [mk_tmp id name ∅ [] (Some m)])
                  (Some (length (objects p))) (data_list_refs p), true).
Proof.
  cbn [for_]. unfold parse_event, update_tmp.
  cbn [mbind result_bind mret result_ret default tmp objects data_list_refs].
  rewrite alter_last. done.
Qed.

Lemma parse_written_tail objs refs t :
  for_ [end_delta; end_mod] parse_event
       (mk_parser (objs ++ [t]) (Some (length objs)) refs, true)
  = Ok (mk_parser (objs ++ [t]) (Some (length objs)) (refs ++ [length objs]),
        false).
Proof. done. Qed.

(** One written mod, read from any state of the parser. *)
Lemma parse_written_mod len md p collect_element :
  for_ (plain_mod_events len md) parse_event (p, collect_element)
  = Ok (mk_parser (objects p ++ [written_tmp len md])
                  (Some (length (objects p)))
                  (data_list_refs p ++ [length (objects p)]), false).
Proof.
  unfold plain_mod_events. rewrite for_result_app, parse_written_head.
  cbn [mbind result_bind].
  rewrite for_result_app, parse_written_elements.
  cbn [mbind result_bind]. rewrite parse_written_tail.
  cbn [tmp_unimodID tmp_unimodname tmp_element tmp_specificity tmp_mono_mass].
  rewrite foldl_insert_nonzero_map_to_list.
  unfold written_tmp. by destruct (mod_id md).
Qed.

(** All the mods of a written file, read from any state of the parser. *)
Lemma parse_written_mods len mds p collect_element :
  mds ≠ [] →
  for_ (flat_map (plain_mod_events len) mds) parse_event (p, collect_element)
  = Ok (mk_parser (objects p ++ (written_tmp len <$> mds))
                  (Some (length (objects p) + length mds - 1))
                  (data_list_refs p ++ seq (length (objects p)) (length mds)),
        false).
Proof.
  revert p collect_element.
  induction mds as [|md mds IH]; intros p collect_element Hne; [done|].
  cbn [flat_map]. rewrite for_result_app, parse_written_mod. simpl.
  destruct mds as [|md' mds].
  - simpl. f_equal. f_equal. f_equal. f_equal. lia.
  - rewrite IH by done. simpl. rewrite length_app. simpl.
    rewrite <- !app_assoc. simpl.
    f_equal. f_equal. f_equal; [f_equal; lia|].
    f_equal. f_equal. f_equal; [lia|]. f_equal. lia.
Qed.

Lemma parse_written_file mds o p xml_file :
  mds ≠ [] →
  read_file o xml_file = Some (plain_usermod_events mds) →
  parse_file o p xml_file
  = Ok (mk_parser (objects p ++ (written_tmp (length mds) <$> mds))
                  (Some (length (objects p) + length mds - 1))
                  (data_list_refs p ++ seq (length (objects p)) (length mds))).
Proof.
  intros Hne Hread. unfold parse_file. rewrite Hread.
  unfold plain_usermod_events. rewrite for_result_app.
  change (for_ [start_other; start_other] parse_event (p, false))
    with (Ok (p, false)).
  cbn [mbind result_bind].
  rewrite for_result_app, (parse_written_mods _ _ p false Hne). done.
Qed.

Lemma mapM_result_Forall2 {A B} (f : A → result B) (l : list A) (k : list B) :
  Forall2 (λ x y, f x = Ok y) l k → mapM f l = Ok k.
Proof.
  induction 1 as [|x y l k Hxy _ IH]; [done|].
  cbn [mapM]. rewrite Hxy. cbn [mbind result_bind].
  change ((mapM f l ≫= λ k', mret (y :: k')) = Ok (y :: k)). by rewrite IH.
Qed.

Lemma insert_before_last_snoc {A} (x y : A) (l : list A) :
  insert_before_last x (l ++ [y]) = l ++ [x; y].
Proof.
  unfold insert_before_last. rewrite length_app. simpl.
  replace (length l + 1 - 1) with (length l) by lia.
  by rewrite take_app_length, drop_app_length.
Qed.

Lemma foldl_insert_before_last md (olds : list unimod_data_dict) :
  foldl (λ mod_dicts data_dict,
           insert_before_last
             (mk_mod (mono_mass data_dict) (unimodname data_dict)
                     (element data_dict) (Some (unimodID data_dict)))
             mod_dicts)
        [md] olds
  = (to_mod_dict <$> olds) ++ [md].
Proof.
  assert (∀ done_,
    foldl (λ mod_dicts data_dict,
             insert_before_last
               (mk_mod (mono_mass data_dict) (unimodname data_dict)
                       (element data_dict) (Some (unimodID data_dict)))
               mod_dicts)
          (done_ ++ [md]) olds
    = (done_ ++ (to_mod_dict <$> olds)) ++ [md]) as Hgen.
  { induction olds as [|d olds IH]; intros done_.
    - simpl. by rewrite app_nil_r.
    - cbn [foldl]. rewrite insert_before_last_snoc.
      change (done_ ++ [mk_mod (mono_mass d) (unimodname d) (element d)
                          (Some (unimodID d)); md])
        with (done_ ++ [to_mod_dict d] ++ [md]).
      rewrite app_assoc, IH, fmap_cons. by rewrite <- !app_assoc. }
  apply (Hgen []).
Qed.

(** The records of the store after the parser has read a written file on
    top of what it had. *)
Lemma deref_after_written p base tmp' len mds :
  mapM (deref p) (data_list_refs p) = Ok base →
  mapM (deref (mk_parser (objects p ++ (written_tmp len <$> mds)) tmp'
                 (data_list_refs p ++ seq (length (objects p)) (length mds))))
       (data_list_refs p ++ seq (length (objects p)) (length mds))
  = Ok (base ++ (written_record len <$> mds)).
Proof.
  intros Hbase%mapM_result_Ok. apply mapM_result_Forall2, Forall2_app.
  - eapply Forall2_impl; [done|]. intros r d. unfold deref. simpl.
    destruct (objects p !! r) as [t|] eqn:Ht; [|done].
    by rewrite (lookup_app_l_Some _ _ _ _ Ht).
  - apply Forall2_same_length_lookup_2.
    { by rewrite length_seq, length_fmap. }
    intros i r d [-> Hi]%lookup_seq Hd. unfold deref. simpl.
    rewrite lookup_app_r by lia.
    replace (length (objects p) + i - length (objects p)) with i by lia.
    rewrite list_lookup_fmap in Hd. rewrite list_lookup_fmap.
    destruct (mds !! i) as [md|]; [|done]. simpl in *. by injection Hd as <-.
Qed.

Lemma _parseXML_after_write o xf mds names' p base :
  mds ≠ [] →
  parse_files (write_file o xf (plain_usermod_events mds)) names' = Ok p →
  mapM (deref p) (data_list_refs p) = Ok base →
  _parseXML (write_file o xf (plain_usermod_events mds)) (names' ++ [xf])
  = Ok (base ++ (written_record (length mds) <$> mds)).
Proof.
  intros Hne Hp Hbase. unfold _parseXML, parse_files in *.
  rewrite for_result_snoc, Hp. cbn [mbind result_bind].
  rewrite (parse_written_file mds); [|done|].
  - cbn [mbind result_bind data_list_refs]. by apply deref_after_written.
  - unfold read_file, write_file, resolve. simpl. apply lookup_insert_eq.
Qed.

(** ** Strings that read back as written *)

Lemma reads_back_as_written_Ok s :
  reads_back_as_written s = true ↔ attribute_read_back s = Ok s.
Proof.
  unfold reads_back_as_written.
  destruct (attribute_read_back s) as [s'|e]; [|done].
  rewrite String.eqb_eq. split; [by intros ->|by intros [= ->]].
Qed.

Lemma printable_reads_back s :
  printable s = true → reads_back_as_written s = true.
Proof.
  intros Hs. apply reads_back_as_written_Ok. unfold attribute_read_back.
  assert (not_well_formed s = false ∧ normalize_attribute s = s) as [-> ->];
    [|done].
  induction s as [|c s IH]; [done|].
  cbn [printable] in Hs.
  apply andb_prop in Hs as [[Hlow%Nat.leb_le Hhigh%Nat.ltb_lt]%andb_prop Hs].
  destruct (IH Hs) as [IHw IHn].
  assert (∀ n, n < 32 → Ascii.eqb c (Ascii.ascii_of_nat n) = false) as Hne.
  { intros n Hn. apply Ascii.eqb_neq. intros ->.
    rewrite Ascii.nat_ascii_embedding in Hlow by lia. lia. }
  split.
  - cbn [not_well_formed]. rewrite IHw, orb_false_r.
    apply orb_false_intro.
    + unfold is_control. apply andb_false_intro1. by apply Nat.ltb_ge.
    + unfold noncharacters. cbn [existsb String.prefix].
      destruct (Ascii.ascii_dec (Ascii.ascii_of_nat 239) c) as [<-|_]; [|done].
      rewrite Ascii.nat_ascii_embedding in Hhigh by lia. lia.
  - cbn [normalize_attribute]. unfold CR, TAB, LF.
    rewrite !Hne by lia. cbn [orb]. by rewrite IHn.
Qed.

Lemma printable_app s t :
  printable s = true → printable t = true → printable (s +:+ t) = true.
Proof.
  intros Hs Ht. induction s as [|c s IH]; [done|].
  cbn [printable] in Hs. apply andb_prop in Hs as [Hc Hs].
  change (String c s +:+ t) with (String c (s +:+ t)).
  cbn [printable]. by rewrite Hc, IH.
Qed.

Lemma pretty_N_go_printable x s :
  printable s = true → printable (pretty_N_go x s) = true.
Proof.
  revert s. induction (N.lt_wf_0 x) as [x _ IH]; intros s Hs.
  assert (x = 0 ∨ 0 < x)%N as [->|Hx] by lia.
  - by rewrite pretty_N_go_0.
  - rewrite pretty_N_go_step by done. apply IH.
    { by apply N.div_lt. }
    cbn [printable]. rewrite Hs, andb_true_r.
    unfold pretty_N_char. by repeat case_match.
Qed.

Lemma pretty_nat_printable (n : nat) : printable (pretty n) = true.
Proof.
  unfold pretty, pretty_nat, pretty, pretty_N.
  case_decide; [done|]. by apply pretty_N_go_printable.
Qed.

(** The id [writeXML] gives an entry without one reads back as written. *)
Lemma default_id_reads_back (len : nat) :
  attribute_read_back ("u" +:+ pretty len) = Ok ("u" +:+ pretty len).
Proof.
  apply reads_back_as_written_Ok, printable_reads_back.
  apply printable_app; [done|apply pretty_nat_printable].
Qed.

Lemma mod_events_plain (len : nat) md :
  entry_reads_back_as_written md = true →
  mod_events len md = Ok (plain_mod_events len md).
Proof.
  unfold entry_reads_back_as_written.
  intros [[Hname Hid]%andb_prop Hsymbols]%andb_prop.
  apply reads_back_as_written_Ok in Hname.
  unfold mod_events, plain_mod_events. rewrite Hname.
  cbn [mbind result_bind].
  assert (attribute_read_back
            match mod_id md with
            | Some i => i
            | None => "u" +:+ pretty len
            end
          = Ok (default ("u" +:+ pretty len) (mod_id md))) as ->.
  { destruct (mod_id md) as [i|]; simpl in *.
    - by apply reads_back_as_written_Ok.
    - apply default_id_reads_back. }
  cbn [mbind result_bind].
  rewrite (mapM_result_Forall2 _ _
             ((λ '(symbol, number), [start_element symbol number; end_other])
              <$> map_to_list (mod_composition md))).
  - cbn [mbind result_bind]. by rewrite <- flat_map_concat_map.
  - apply Forall2_fmap_r, Forall_Forall2_diag, Forall_forall.
    intros [symbol number] Hin.
    assert (reads_back_as_written symbol = true) as Hsymbol.
    { rewrite forallb_forall in Hsymbols.
      apply (Hsymbols (symbol, number)). by apply list_elem_of_In. }
    apply reads_back_as_written_Ok in Hsymbol. by rewrite Hsymbol.
Qed.

Lemma usermod_events_plain mds :
  forallb entry_reads_back_as_written mds = true →
  usermod_events mds = Ok (plain_usermod_events mds).
Proof.
  intros Hplain. unfold usermod_events, plain_usermod_events.
  rewrite (mapM_result_Forall2 _ _ (plain_mod_events (length mds) <$> mds)).
  - cbn [mbind result_bind]. by rewrite <- flat_map_concat_map.
  - apply Forall2_fmap_r, Forall_Forall2_diag, Forall_forall.
    intros md Hin. apply mod_events_plain.
    rewrite forallb_forall in Hplain. apply Hplain. by apply list_elem_of_In.
Qed.

Lemma writeXML_run o names stale_store stale_index md xml_file olds p base :
  let xf := default (truediv (here o) (mk_path false ["usermod.xml"])) xml_file in
  let mod_dicts := (to_mod_dict <$> olds) ++ [md] in
  let o' := write_file o xf (plain_usermod_events mod_dicts) in
  (read_file o xf = None ∧ olds = []
   ∨ is_Some (read_file o xf) ∧ _parseXML o [xf] = Ok olds) →
  forallb entry_reads_back_as_written mod_dicts = true →
  parse_files o' (truediv (here o) <$> names) = Ok p →
  mapM (deref p) (data_list_refs p) = Ok base →
  writeXML md xml_file (mk_state o (mk_self names stale_store stale_index))
  = Ok ((), with_store o' names
              (base ++ (written_record (length mod_dicts) <$> mod_dicts)) true).
Proof.
  intros xf mod_dicts o' Hold Hplain Hp Hbase.
  assert (mod_dicts ≠ []) as Hne.
  { unfold mod_dicts. by destruct (to_mod_dict <$> olds). }
  pose proof (_parseXML_after_write o xf mod_dicts _ p base Hne Hp Hbase) as Hparse.
  apply usermod_events_plain in Hplain.
  unfold writeXML. cbn [world self unimod_xml_names].
  change (match xml_file with
          | Some f => f
          | None => truediv (here o) (mk_path false ["usermod.xml"])
          end) with xf.
  assert (∀ mds, mds = mod_dicts →
            (events ← usermod_events mds;
             _reparseXML
               (map (truediv (here (write_file o xf events))) names ++ [xf])
               (mk_state (write_file o xf events)
                         (mk_self names stale_store stale_index)))
            = Ok ((), with_store o' names
                        (base ++ (written_record (length mod_dicts) <$> mod_dicts))
                        true)) as Hreparse.
  { intros mds ->. rewrite Hplain. cbn [mbind result_bind].
    unfold _reparseXML. cbn [world self unimod_xml_names].
    change (here (write_file o xf (plain_usermod_events mod_dicts)))
      with (here o).
    change (map (truediv (here o)) names) with (truediv (here o) <$> names).
    rewrite Hparse. done. }
  destruct Hold as [[Hr ->]|[[events Hr] Holds]].
  - rewrite Hr. cbn [mbind result_bind]. by apply Hreparse.
  - rewrite Hr, Holds. cbn [mbind result_bind]. apply Hreparse.
    apply foldl_insert_before_last.
Qed.

Lemma records_at_lookup l index_list i d :
  i ∈ index_list → l !! i = Some d → ∃ j, records_at l index_list !! j = Some d.
Proof.
  intros Hi Hd. apply list_elem_of_lookup. unfold records_at.
  apply list_elem_of_omap. by exists i.
Qed.

Lemma without_zero_counts_id composition :
  nonzero_counts composition → without_zero_counts composition = composition.
Proof.
  intros Hnonzero. unfold without_zero_counts. apply map_filter_id.
  intros symbol number. apply Hnonzero.
Qed.

(** C9 (as amended): when the overlay file and the other sources parse,
    and the names, ids and element symbols of the entries written (the
    entries the overlay file holds already, and the new one) read back as
    written, [writeXML] returns, and the store it leaves is the parse of
    all sources after the write and the index is the one built from that
    store, whatever they were before; the list lookups by the name of the
    entry then hold, at one position, the mass that was written and the
    composition that was written without its elements of count zero,
    which is the written composition when it has no such element. *)
Theorem writeXML_rebuilds_and_reads_back
    (o : os) (names : list Path)
    (stale_store : option (list unimod_data_dict)) (stale_index : option dict)
    (md : modification_dict) (xml_file : option Path)
    (olds : list unimod_data_dict) (events : list xml_event)
    (p : parser) (base : list unimod_data_dict) :
  let xf := default (truediv (here o) (mk_path false ["usermod.xml"])) xml_file in
  let mod_dicts := (to_mod_dict <$> olds) ++ [md] in
  let o' := write_file o xf events in
  (read_file o xf = None ∧ olds = []
   ∨ is_Some (read_file o xf) ∧ _parseXML o [xf] = Ok olds) →
  forallb entry_reads_back_as_written mod_dicts = true →
  usermod_events mod_dicts = Ok events →
  parse_files o' (truediv (here o) <$> names) = Ok p →
  mapM (deref p) (data_list_refs p) = Ok base →
  ∃ store,
    writeXML md xml_file (mk_state o (mk_self names stale_store stale_index))
    = Ok ((), with_store o' names store true) ∧
    _parseXML o' ((truediv (here o) <$> names) ++ [xf]) = Ok store ∧
    ∃ masses compositions j,
      name2mass_list (mod_name md) (with_store o' names store true)
      = Ok (masses, with_store o' names store true) ∧
      name2composition_list (mod_name md) (with_store o' names store true)
      = Ok (compositions, with_store o' names store true) ∧
      masses !! j = Some (mod_mass md) ∧
      compositions !! j = Some (without_zero_counts (mod_composition md)) ∧
      (nonzero_counts (mod_composition md) →
       compositions !! j = Some (mod_composition md)).
Proof.
  intros xf mod_dicts o' Hold Hplain Hevents Hp Hbase.
  assert (events = plain_usermod_events mod_dicts) as Hplain_events.
  { rewrite (usermod_events_plain _ Hplain) in Hevents. by injection Hevents. }
  assert (mod_dicts ≠ []) as Hne.
  { unfold mod_dicts. by destruct (to_mod_dict <$> olds). }
  set (store := base ++ (written_record (length mod_dicts) <$> mod_dicts)).
  exists store. unfold o' in *. rewrite Hplain_events in *. split.
  { exact (writeXML_run o names stale_store stale_index md xml_file olds p base
             Hold Hplain Hp Hbase). }
  split.
  { exact (_parseXML_after_write o xf mod_dicts _ p base Hne Hp Hbase). }
  set (d := written_record (length mod_dicts) md).
  assert (store !! (length base + length olds) = Some d) as Hd.
  { unfold store, mod_dicts. rewrite lookup_app_r by lia.
    rewrite fmap_app, lookup_app_r by (rewrite !length_fmap; lia).
    rewrite !length_fmap.
    replace (length base + length olds - length base - length olds) with 0 by lia.
    done. }
  destruct (record_registered store _ d (KStr (mod_name md)) Hd)
    as (il & Hget & Hin).
  { unfold record_keys. right. left. }
  { simpl. apply String.eqb_refl. }
  destruct (records_at_lookup store il _ d Hin Hd) as [j Hj].
  exists (mono_mass <$> records_at store il),
         (element <$> records_at store il), j.
  unfold name2mass_list, name2composition_list.
  rewrite !get_list_with_store, Hget, !list_lookup_fmap, Hj.
  split_and!; [done..|].
  intros Hnonzero. simpl. by rewrite without_zero_counts_id.
Qed.

Lemma writeXML_rebuilds_and_reads_back_witness :
  ∃ s masses j,
    writeXML sample_mod None sample_state = Ok ((), s) ∧
    name2mass_list "Foo" s = Ok (masses, s) ∧
    masses !! j = Some 1.5%float.
Proof.
  edestruct (writeXML_rebuilds_and_reads_back sample_os [usermod_xml; unimod_xml]
               None None sample_mod None [])
    as (store & Hrun & _ & masses & compositions & j & Hmass & _ & Hj & _).
  - left. split; vm_compute; reflexivity.
  - vm_compute. reflexivity.
  - vm_compute. reflexivity.
  - vm_compute. reflexivity.
  - vm_compute. reflexivity.
  - eexists _, masses, j. split_and!; [exact Hrun|exact Hmass|exact Hj].
Defined.

(** An element written with a count of zero is not in the composition
    that is read back. *)
Lemma writeXML_drops_zero_counts :
  match writeXML sample_mod None sample_state with
  | Ok (_, s) =>
      name2first_mass "Foo" s = Ok (Some (mod_mass sample_mod), s) ∧
      name2first_composition "Foo" s = Ok (Some {[ "C" := 1%Z ]}, s) ∧
      name2composition_list "Foo" s
      = Ok ([ {[ "C" := 1%Z ]}; {[ "C" := 1%Z ]} ], s)
  | Raise _ => False
  end
  ∧ mod_composition sample_mod ≠ {[ "C" := 1%Z ]}.
Proof.
  split.
  - vm_compute. split_and!; reflexivity.
  - intros Heq. apply (f_equal (lookup "H")) in Heq. vm_compute in Heq.
    discriminate.
Qed.

(** An entry written a second time under the same name comes after the
    first one: the list lookup holds both masses (each twice, as the
    overlay file is read as a source of the object and again as the file
    just written), and the "first" lookup gives the older one. *)
Example writeXML_same_name_twice :
  match writeXML (mk_mod 1.5%float "Foo" {[ "C" := 1%Z ]} None) None sample_state with
  | Ok (_, s1) =>
      match writeXML (mk_mod 2.5%float "Foo" {[ "C" := 1%Z ]} None) None s1 with
      | Ok (_, s2) =>
          name2mass_list "Foo" s2 = Ok ([1.5; 2.5; 1.5; 2.5]%float, s2) ∧
          name2first_mass "Foo" s2 = Ok (Some 1.5%float, s2) ∧
          name2id_list "Foo" s2 = Ok (["u1"; "u2"; "u1"; "u2"], s2)
      | Raise _ => False
      end
  | Raise _ => False
  end.
Proof. vm_compute. split_and!; reflexivity. Qed.



(** A name written with a TAB in it is read back with a space in its
    place: the lookup by the name as it was written finds nothing, the
    lookup by the name with the space finds the entry. *)
Example writeXML_name_with_tab :
  match writeXML (mk_mod 1.5%float foo_tab_bar {[ "C" := 1%Z ]} None) None
          sample_state with
  | Ok (_, s) =>
      name2mass_list foo_tab_bar s = Ok ([], s) ∧
      name2mass_list foo_space_bar s = Ok ([1.5; 1.5]%float, s)
  | Raise _ => False
  end.
Proof. vm_compute. split; reflexivity. Qed.

(** A name with a control character in it cannot be written. *)
Example writeXML_name_with_control_character :
  writeXML (mk_mod 1.5%float foo_soh_bar {[ "C" := 1%Z ]} None) None sample_state
  = Raise ExpatError.
Proof. vm_compute. reflexivity. Qed.
(** ** The index as a grouping of the registrations *)

Lemma key_eqb_sym a b : key_eqb a b = true → key_eqb b a = true.
Proof.
  destruct a as [s|x], b as [t|y]; simpl; try done.
  - rewrite !String.eqb_eq. congruence.
  - apply float_eqb_sym.
Qed.

Lemma key_eqb_trans a b c :
  key_eqb a b = true → key_eqb b c = true → key_eqb a c = true.
Proof.
  destruct a as [s|x], b as [t|y], c as [u|z]; simpl; try done.
  - rewrite !String.eqb_eq. congruence.
  - apply float_eqb_trans.
Qed.

Lemma dict_get_register k value index mapper :
  dict_get k (register value index mapper)
  = if key_eqb value k
    then Some (default [] (dict_get k mapper) ++ [index])
    else dict_get k mapper.
Proof.
  induction mapper as [|[k' il] rest IH]; simpl.
  - by destruct (key_eqb value k).
  - destruct (key_eqb k' value) eqn:Hv, (key_eqb value k) eqn:Hk,
      (key_eqb k' k) eqn:Hk'; simpl; rewrite ?Hk', ?IH, ?Hk; try done.
    + by rewrite (key_eqb_trans _ _ _ Hv Hk) in Hk'.
    + apply key_eqb_sym in Hv. by rewrite (key_eqb_trans _ _ _ Hv Hk') in Hk.
    + apply key_eqb_sym in Hk. by rewrite (key_eqb_trans _ _ _ Hk' Hk) in Hv.
Qed.

Lemma registrations_snoc l d :
  registrations (l ++ [d]) = registrations l ++ (pair (length l) <$> record_keys d).
Proof.
  unfold registrations. by rewrite enumerate_snoc, flat_map_app.
Qed.

Lemma _initialize_mapper_registrations l :
  _initialize_mapper l
  = foldl (λ mapper r, register r.2 r.1 mapper) [] (registrations l).
Proof.
  induction l as [|d l IH] using rev_ind; [done|].
  rewrite _initialize_mapper_snoc, registrations_snoc, foldl_app, <- IH. done.
Qed.

Lemma dict_get_foldl_register k regs :
  dict_get k (foldl (λ mapper r, register r.2 r.1 mapper) [] regs)
  = match (filter (λ r, key_eqb r.2 k = true) regs).*1 with
    | [] => None
    | index_list => Some index_list
    end.
Proof.
  induction regs as [|[i v] regs IH] using rev_ind; [done|].
  rewrite foldl_app, filter_app, fmap_app. simpl.
  rewrite dict_get_register, IH, filter_cons. simpl.
  destruct (key_eqb v k) eqn:Hv.
  - rewrite decide_True by done. simpl.
    by destruct ((filter _ regs).*1).
  - rewrite decide_False by congruence. simpl. by rewrite app_nil_r.
Qed.

Lemma dict_get_positions_of (l : list unimod_data_dict) (k : key) :
  dict_get k (_initialize_mapper l)
  = match positions_of k l with
    | [] => None
    | index_list => Some index_list
    end.
Proof.
  rewrite _initialize_mapper_registrations. apply dict_get_foldl_register.
Qed.


(** ** The lookups in terms of the records of the store *)

Lemma registrations_lt l r : r ∈ registrations l → r.1 < length l.
Proof.
  unfold registrations. intros Hr.
  apply list_elem_of_In, in_flat_map in Hr as ([i d] & Hin & Hr).
  apply list_elem_of_In, elem_of_enumerate in Hin.
  apply list_elem_of_In, list_elem_of_fmap in Hr as (v & -> & _). simpl.
  by eapply lookup_lt_Some.
Qed.

Lemma positions_of_lt k l : Forall (λ i, i < length l) (positions_of k l).
Proof.
  unfold positions_of. rewrite Forall_fmap, Forall_forall.
  intros r [_ Hr]%list_elem_of_filter. by apply registrations_lt.
Qed.

Lemma records_at_app_l l l' index_list :
  Forall (λ i, i < length l) index_list →
  records_at (l ++ l') index_list = records_at l index_list.
Proof.
  unfold records_at. induction 1 as [|i il Hi _ IH]; [done|].
  cbn [omap list_omap]. rewrite lookup_app_l by done.
  destruct (l !! i); [f_equal|]; apply IH.
Qed.

Lemma records_at_last_registrations (l : list unimod_data_dict) d k
    (vs : list key) :
  omap (λ i, (l ++ [d]) !! i)
       (filter (λ r, key_eqb r.2 k = true) (pair (length l) <$> vs)).*1
  = (λ _, d) <$> filter (λ v, key_eqb v k = true) vs.
Proof.
  induction vs as [|v vs IH]; [done|].
  rewrite fmap_cons, !filter_cons. simpl.
  destruct (decide (key_eqb v k = true)); [|done].
  simpl. rewrite lookup_app_r, Nat.sub_diag by done. simpl. by f_equal.
Qed.

Lemma records_at_positions_of k l :
  records_at l (positions_of k l) = matching_records k l.
Proof.
  induction l as [|d l IH] using rev_ind; [done|].
  unfold positions_of, matching_records in *.
  rewrite registrations_snoc, filter_app, fmap_app, flat_map_app.
  unfold records_at in *. rewrite omap_app. f_equal.
  - rewrite <- IH. apply (records_at_app_l l [d]), positions_of_lt.
  - cbn [flat_map]. rewrite app_nil_r. apply records_at_last_registrations.
Qed.

(** X1: the list the index holds for a key is the list of the positions
    registered under a key equal to it, in the order of the store, that
    is, the positions of the records with such a key, each as often as
    the record has one; the key is missing exactly when there is no such
    position. *)
Theorem index_groups_registrations (l : list unimod_data_dict) (k : key) :
  dict_get k (_initialize_mapper l)
  = match positions_of k l with
    | [] => None
    | index_list => Some index_list
    end
  ∧ records_at l (positions_of k l) = matching_records k l
  ∧ Forall (λ i, i < length l) (positions_of k l).
Proof.
  split_and!.
  - apply dict_get_positions_of.
  - apply records_at_positions_of.
  - apply positions_of_lt.
Qed.

Lemma get_list_matching_records {A} o names l c k
    (return_key : unimod_data_dict → A) :
  get_list k return_key (with_store o names l c)
  = Ok (return_key <$> matching_records k l, with_store o names l true).
Proof.
  rewrite get_list_with_store, dict_get_positions_of.
  rewrite <- records_at_positions_of. by destruct (positions_of k l).
Qed.

(** X2: on a store, each list lookup that reads the index with [get]
    returns, in the order of the store, the requested attribute of the
    records that have a key equal to the key asked for, whichever of id,
    name, canonical composition string and mass that key is. *)
Theorem list_lookups_return_matching_records
    (o : os) (names : list Path) (l : list unimod_data_dict) (indexed : bool)
    (unimod_name composition : string) (unimod_id : unimod_id_arg)
    (mass : float) :
  returns_attributes_of_matches (name2mass_list unimod_name)
    (KStr unimod_name) mono_mass o names l indexed ∧
  returns_attributes_of_matches (name2composition_list unimod_name)
    (KStr unimod_name) element o names l indexed ∧
  returns_attributes_of_matches (name2id_list unimod_name)
    (KStr unimod_name) unimodID o names l indexed ∧
  returns_attributes_of_matches (name2specificity_list unimod_name)
    (KStr unimod_name) specificity o names l indexed ∧
  returns_attributes_of_matches (id2mass_list unimod_id)
    (KStr (normalize_id unimod_id)) mono_mass o names l indexed ∧
  returns_attributes_of_matches (id2composition_list unimod_id)
    (KStr (normalize_id unimod_id)) element o names l indexed ∧
  returns_attributes_of_matches (id2name_list unimod_id)
    (KStr (normalize_id unimod_id)) unimodname o names l indexed ∧
  returns_attributes_of_matches (mass2id_list mass)
    (KFloat mass) unimodID o names l indexed ∧
  returns_attributes_of_matches (composition2name_list composition)
    (KStr composition) unimodname o names l indexed ∧
  returns_attributes_of_matches (composition2id_list composition)
    (KStr composition) unimodID o names l indexed.
Proof. split_and!; apply get_list_matching_records. Qed.

Lemma getitem_list_matching_records {A} o names l c k
    (return_key : unimod_data_dict → A) :
  getitem_list k return_key (with_store o names l c)
  = match matching_records k l with
    | [] => Raise KeyError
    | matches => Ok (return_key <$> matches, with_store o names l true)
    end.
Proof.
  rewrite getitem_list_with_store, dict_get_positions_of.
  rewrite <- records_at_positions_of.
  pose proof (positions_of_lt k l) as Hlt.
  destruct (positions_of k l) as [|i il]; [done|].
  apply Forall_cons in Hlt as [Hi _].
  apply lookup_lt_is_Some_2 in Hi as [d Hd].
  unfold records_at. simpl. by rewrite Hd.
Qed.

Lemma matching_records_mass_nil mass l :
  matching_records (KFloat mass) l = []
  ↔ ∀ d, d ∈ l → PrimFloat.eqb (mono_mass d) mass = false.
Proof.
  unfold matching_records. induction l as [|d l IH].
  - split; [by intros _ d ?%elem_of_nil|done].
  - cbn [flat_map]. unfold record_keys at 1.
    rewrite !filter_cons, filter_nil. cbn [key_eqb].
    rewrite !(decide_False (P := false = true)) by done.
    destruct (decide (PrimFloat.eqb (mono_mass d) mass = true)) as [Heq|Hne].
    + split; [done|]. intros Hall. rewrite Hall in Heq; [done|left].
    + cbn [fmap list_fmap app]. rewrite IH. split.
      * intros Hl d' [->|Hd']%elem_of_cons; [|by apply Hl].
        by apply not_true_is_false.
      * intros Hall d' Hd'. apply Hall. by right.
Qed.

(** X3: [mass2name_list] and [mass2composition_list] raise KeyError
    exactly when no record of the store has a mass equal to the mass asked
    for; otherwise they return the names and the compositions of the
    records with that mass, in the order of the store. *)
Theorem mass_subscript_lookups
    (o : os) (names : list Path) (l : list unimod_data_dict) (indexed : bool)
    (mass : float) :
  (mass2name_list mass (with_store o names l indexed) = Raise KeyError
   ↔ ∀ d, d ∈ l → PrimFloat.eqb (mono_mass d) mass = false) ∧
  (mass2composition_list mass (with_store o names l indexed) = Raise KeyError
   ↔ ∀ d, d ∈ l → PrimFloat.eqb (mono_mass d) mass = false) ∧
  ((∃ d, d ∈ l ∧ PrimFloat.eqb (mono_mass d) mass = true) →
   mass2name_list mass (with_store o names l indexed)
   = Ok (unimodname <$> matching_records (KFloat mass) l,
         with_store o names l true) ∧
   mass2composition_list mass (with_store o names l indexed)
   = Ok (element <$> matching_records (KFloat mass) l,
         with_store o names l true)).
Proof.
  pose proof (matching_records_mass_nil mass l) as Hnone.
  unfold mass2name_list, mass2composition_list.
  rewrite !getitem_list_matching_records. split_and!.
  - rewrite <- Hnone. by destruct (matching_records _ _).
  - rewrite <- Hnone. by destruct (matching_records _ _).
  - intros (d & Hd & Heq).
    destruct (matching_records (KFloat mass) l) eqn:Hm; [|done].
    pose proof (proj1 (matching_records_mass_nil mass l) Hm d Hd) as Hne.
    congruence.
Qed.

Lemma mass_subscript_lookups_witness :
  mass2name_list 15.994915
    (with_store no_files [] sample_store false)
  = Ok (["Oxidation"], with_store no_files [] sample_store true).
Proof.
  destruct (mass_subscript_lookups no_files [] sample_store false 15.994915)
    as (_ & _ & Hfound).
  destruct Hfound as [Hnames _].
  - exists oxidation. split; [|vm_compute; reflexivity].
    unfold sample_store. do 2 right. left.
  - rewrite Hnames. vm_compute. reflexivity.
Defined.

Lemma head_records_at l index_list :
  Forall (λ i, i < length l) index_list →
  (i ← head index_list; l !! i) = head (records_at l index_list).
Proof.
  intros Hlt. destruct index_list as [|i il]; [done|].
  apply Forall_cons in Hlt as [Hi _].
  apply lookup_lt_is_Some_2 in Hi as [d Hd].
  unfold records_at. simpl. by rewrite Hd.
Qed.

Lemma get_first_matching_records {A} o names l c k
    (return_key : unimod_data_dict → A) :
  get_first k return_key (with_store o names l c)
  = Ok (head (return_key <$> matching_records k l), with_store o names l true).
Proof.
  rewrite get_first_with_store_head, dict_get_positions_of.
  rewrite <- records_at_positions_of.
  pose proof (head_records_at l _ (positions_of_lt k l)) as Hhead.
  destruct (positions_of k l) as [|i il] eqn:Hpos; [done|].
  cbn [mbind option_bind]. rewrite Hhead. by destruct (records_at l (i :: il)).
Qed.

(** X4: on a store, each "first" lookup returns the first entry of the
    list that the list lookup for the same key and attribute returns, and
    [None] when that list is empty. *)
Theorem first_lookups_return_head_of_list
    (o : os) (names : list Path) (l : list unimod_data_dict) (indexed : bool)
    (unimod_name : string) (unimod_id : unimod_id_arg) :
  returns_head_of (name2first_mass unimod_name) (name2mass_list unimod_name)
    o names l indexed ∧
  returns_head_of (name2first_composition unimod_name)
    (name2composition_list unimod_name) o names l indexed ∧
  returns_head_of (name2first_id unimod_name) (name2id_list unimod_name)
    o names l indexed ∧
  returns_head_of (id2first_mass unimod_id) (id2mass_list unimod_id)
    o names l indexed ∧
  returns_head_of (id2first_composition unimod_id)
    (id2composition_list unimod_id) o names l indexed ∧
  returns_head_of (id2first_name unimod_id) (id2name_list unimod_id)
    o names l indexed.
Proof.
  split_and!; eexists; (split; [apply get_list_matching_records|]);
    apply get_first_matching_records.
Qed.

(** X5: on a store, [_map_key_2_index_2_value], which takes the first
    position of the list of the key, returns what the "first" lookups
    return with the minimum of that list: the attribute of the first
    record of the store that has a key equal to the key asked for. *)
Theorem _map_key_2_index_2_value_is_first {A}
    (o : os) (names : list Path) (l : list unimod_data_dict) (indexed : bool)
    (map_key : key) (return_key : unimod_data_dict → A) :
  _map_key_2_index_2_value map_key return_key (with_store o names l indexed)
  = Ok (return_key <$> head (matching_records map_key l),
        with_store o names l true)
  ∧ _map_key_2_index_2_value map_key return_key (with_store o names l indexed)
    = get_first map_key return_key (with_store o names l indexed).
Proof.
  assert (_map_key_2_index_2_value map_key return_key
            (with_store o names l indexed)
          = Ok (return_key <$> head (matching_records map_key l),
                with_store o names l true)) as Hrun.
  { unfold _map_key_2_index_2_value, mbind at 1, M_bind at 1.
    rewrite mapper_with_store, dict_get_positions_of.
    rewrite <- records_at_positions_of.
    pose proof (positions_of_lt map_key l) as Hlt.
    destruct (positions_of map_key l) as [|i il]; [done|].
    apply Forall_cons in Hlt as [Hi _].
    apply lookup_lt_is_Some_2 in Hi as [d Hd].
    unfold mbind, M_bind. rewrite _data_list_2_value_with_store, Hd.
    unfold records_at. simpl. by rewrite Hd. }
  split; [done|]. rewrite Hrun, get_first_matching_records.
  by destruct (matching_records map_key l).
Qed.

Lemma elem_of_matching_records k l d v :
  d ∈ l → v ∈ record_keys d → key_eqb v k = true → d ∈ matching_records k l.
Proof.
  intros Hd Hv Hk. unfold matching_records.
  apply list_elem_of_In, in_flat_map. exists d.
  split; [by apply list_elem_of_In|]. apply list_elem_of_In.
  apply (list_elem_of_fmap_2' _ _ v); [|done].
  by apply list_elem_of_filter.
Qed.

(** X6: every record of a store is found under each of its keys: the
    lookups by its name, by its id and by its canonical composition string
    return its other attributes among their results, and so do the
    lookups by its mass when the mass equals itself (is not NaN). *)
Theorem record_found_under_its_keys
    (o : os) (names : list Path) (l : list unimod_data_dict) (indexed : bool)
    (d : unimod_data_dict) :
  d ∈ l →
  (∃ ids masses compositions,
     name2id_list (unimodname d) (with_store o names l indexed)
     = Ok (ids, with_store o names l true) ∧
     name2mass_list (unimodname d) (with_store o names l indexed)
     = Ok (masses, with_store o names l true) ∧
     name2composition_list (unimodname d) (with_store o names l indexed)
     = Ok (compositions, with_store o names l true) ∧
     unimodID d ∈ ids ∧ mono_mass d ∈ masses ∧ element d ∈ compositions) ∧
  (∃ unimod_names masses,
     id2name_list (id_str (unimodID d)) (with_store o names l indexed)
     = Ok (unimod_names, with_store o names l true) ∧
     id2mass_list (id_str (unimodID d)) (with_store o names l indexed)
     = Ok (masses, with_store o names l true) ∧
     unimodname d ∈ unimod_names ∧ mono_mass d ∈ masses) ∧
  (∃ unimod_names ids,
     composition2name_list (hill_notation (element d))
       (with_store o names l indexed)
     = Ok (unimod_names, with_store o names l true) ∧
     composition2id_list (hill_notation (element d))
       (with_store o names l indexed)
     = Ok (ids, with_store o names l true) ∧
     unimodname d ∈ unimod_names ∧ unimodID d ∈ ids) ∧
  (PrimFloat.eqb (mono_mass d) (mono_mass d) = true →
   ∃ unimod_names ids compositions,
     mass2name_list (mono_mass d) (with_store o names l indexed)
     = Ok (unimod_names, with_store o names l true) ∧
     mass2id_list (mono_mass d) (with_store o names l indexed)
     = Ok (ids, with_store o names l true) ∧
     mass2composition_list (mono_mass d) (with_store o names l indexed)
     = Ok (compositions, with_store o names l true) ∧
     unimodname d ∈ unimod_names ∧ unimodID d ∈ ids ∧
     element d ∈ compositions).
Proof.
  intros Hd.
  assert (∀ v, v ∈ record_keys d → key_eqb v v = true →
               d ∈ matching_records v l) as Hin.
  { intros v Hv Hrefl. by eapply elem_of_matching_records. }
  assert (∀ s, key_eqb (KStr s) (KStr s) = true) as Hstr.
  { intros s. apply String.eqb_refl. }
  split_and!.
  - eexists _, _, _. unfold name2id_list, name2mass_list, name2composition_list.
    rewrite !get_list_matching_records.
    split_and!; [done..| | |]; apply list_elem_of_fmap_2, Hin; auto;
      unfold record_keys; right; left.
  - eexists _, _. unfold id2name_list, id2mass_list.
    rewrite !get_list_matching_records.
    split_and!; [done..| |]; apply list_elem_of_fmap_2, Hin; auto;
      unfold record_keys; left.
  - eexists _, _. unfold composition2name_list, composition2id_list.
    rewrite !get_list_matching_records.
    split_and!; [done..| |]; apply list_elem_of_fmap_2, Hin; auto;
      unfold record_keys; do 2 right; left.
  - intros Hrefl.
    assert (d ∈ matching_records (KFloat (mono_mass d)) l) as Hm.
    { apply Hin; [|done]. unfold record_keys. do 3 right. left. }
    unfold mass2name_list, mass2composition_list, mass2id_list.
    rewrite !getitem_list_matching_records, get_list_matching_records.
    destruct (matching_records (KFloat (mono_mass d)) l) as [|d' ds] eqn:Hds;
      [by apply elem_of_nil in Hm|].
    eexists _, _, _.
    split_and!; [done..| | |]; by apply list_elem_of_fmap_2.
Qed.

Lemma record_found_under_its_keys_witness :
  ∃ ids, name2id_list "Oxidation" (with_store no_files [] sample_store false)
         = Ok (ids, with_store no_files [] sample_store true)
         ∧ "35" ∈ ids.
Proof.
  destruct (record_found_under_its_keys no_files [] sample_store false oxidation)
    as ((ids & masses & compositions & Hids & _ & _ & Hin & _) & _).
  - unfold sample_store. do 2 right. left.
  - exists ids. split; [exact Hids|exact Hin].
Defined.

(** ** Masses as keys *)

Lemma dict_get_equal_mass (x y : float) (mapper : dict) :
  PrimFloat.eqb x y = true →
  dict_get (KFloat x) mapper = dict_get (KFloat y) mapper.
Proof.
  intros Hxy. induction mapper as [|[k il] rest IH]; [done|]. simpl.
  assert (key_eqb k (KFloat x) = key_eqb k (KFloat y)) as ->; [|by rewrite IH].
  destruct (key_eqb k (KFloat x)) eqn:Hx, (key_eqb k (KFloat y)) eqn:Hy;
    try done.
  - by rewrite (key_eqb_trans k (KFloat x) (KFloat y) Hx Hxy) in Hy.
  - assert (key_eqb (KFloat y) (KFloat x) = true) as Hyx
      by (by apply (key_eqb_sym (KFloat x) (KFloat y))).
    by rewrite (key_eqb_trans k (KFloat y) (KFloat x) Hy Hyx) in Hx.
Qed.

Lemma get_list_same_entry {A} k1 k2 (return_key : unimod_data_dict → A) s :
  (∀ mapper, dict_get k1 mapper = dict_get k2 mapper) →
  get_list k1 return_key s = get_list k2 return_key s.
Proof.
  intros Hget. unfold get_list, mbind, M_bind.
  destruct (mapper s) as [[m s']|e]; [|done]. by rewrite Hget.
Qed.

Lemma getitem_list_same_entry {A} k1 k2 (return_key : unimod_data_dict → A) s :
  (∀ mapper, dict_get k1 mapper = dict_get k2 mapper) →
  getitem_list k1 return_key s = getitem_list k2 return_key s.
Proof.
  intros Hget. unfold getitem_list, dict_getitem, mbind, M_bind.
  destruct (mapper s) as [[m s']|e]; [|done]. by rewrite Hget.
Qed.

(** X7: two masses that are equal under [==], such as 0.0 and -0.0, are
    one key: in every state the lookups by mass give the same result for
    both, whether a list or an exception. *)
Theorem equal_masses_same_key (x y : float) (s : state) :
  PrimFloat.eqb x y = true →
  mass2id_list x s = mass2id_list y s ∧
  mass2name_list x s = mass2name_list y s ∧
  mass2composition_list x s = mass2composition_list y s.
Proof.
  intros Hxy. split_and!.
  - apply get_list_same_entry. intros m. by apply dict_get_equal_mass.
  - apply getitem_list_same_entry. intros m. by apply dict_get_equal_mass.
  - apply getitem_list_same_entry. intros m. by apply dict_get_equal_mass.
Qed.

Lemma equal_masses_same_key_witness :
  mass2id_list 0 (with_store no_files [] sample_store false)
  = mass2id_list (-0) (with_store no_files [] sample_store false).
Proof.
  apply (equal_masses_same_key 0 (-0) (with_store no_files [] sample_store false)).
  vm_compute. reflexivity.
Defined.

(** ** Reading the sources on first use *)

Lemma data_list_unread o names :
  data_list (unread o names)
  = match _parseXML o names with
    | Ok l => Ok (l, with_store o names l false)
    | Raise e => Raise e
    end.
Proof. unfold data_list, unread. simpl. by destruct (_parseXML o names). Qed.

Lemma mapper_unread o names :
  mapper (unread o names)
  = match _parseXML o names with
    | Ok l => Ok (_initialize_mapper l, with_store o names l true)
    | Raise e => Raise e
    end.
Proof.
  unfold mapper. cbn [unread self _mapper]. fold (unread o names).
  rewrite data_list_unread. by destruct (_parseXML o names).
Qed.

Lemma mapper_bind_reads_on_first_use {A} (k : dict → M A) o names :
  reads_on_first_use (mapper ≫= k) o names.
Proof.
  unfold reads_on_first_use, mbind, M_bind.
  rewrite mapper_unread. destruct (_parseXML o names) as [l|e]; [|done].
  by rewrite mapper_with_store.
Qed.

Lemma data_list_bind_reads_on_first_use {A}
    (k : list unimod_data_dict → M A) o names :
  reads_on_first_use (data_list ≫= k) o names.
Proof.
  unfold reads_on_first_use, mbind, M_bind.
  rewrite data_list_unread. destruct (_parseXML o names) as [l|e]; [|done].
  by rewrite data_list_with_store.
Qed.

(** X8: the lookups read the sources on first use.  Where every mod of
    the sources has a delta (the parse does not end in [MissingDelta]), a
    lookup on an object that has read nothing returns what it returns on
    the store that the sources of the object parse into, and raises what
    the parse raises (such as SystemExit for a missing unimod.xml). *)
Theorem lookups_read_on_first_use (o : os) (names : list Path)
    (unimod_name composition : string) (unimod_id : unimod_id_arg)
    (mass : float) (decimal_places : Z) :
  _parseXML o names ≠ Raise MissingDelta →
  reads_on_first_use (name2mass_list unimod_name) o names ∧
  reads_on_first_use (name2first_mass unimod_name) o names ∧
  reads_on_first_use (name2composition_list unimod_name) o names ∧
  reads_on_first_use (name2first_composition unimod_name) o names ∧
  reads_on_first_use (name2id_list unimod_name) o names ∧
  reads_on_first_use (name2first_id unimod_name) o names ∧
  reads_on_first_use (name2specificity_list unimod_name) o names ∧
  reads_on_first_use (id2mass_list unimod_id) o names ∧
  reads_on_first_use (id2first_mass unimod_id) o names ∧
  reads_on_first_use (id2composition_list unimod_id) o names ∧
  reads_on_first_use (id2first_composition unimod_id) o names ∧
  reads_on_first_use (id2name_list unimod_id) o names ∧
  reads_on_first_use (id2first_name unimod_id) o names ∧
  reads_on_first_use (mass2name_list mass) o names ∧
  reads_on_first_use (mass2id_list mass) o names ∧
  reads_on_first_use (mass2composition_list mass) o names ∧
  reads_on_first_use (composition2name_list composition) o names ∧
  reads_on_first_use (composition2id_list composition) o names ∧
  reads_on_first_use (composition2mass composition) o names ∧
  reads_on_first_use (appMass2id_list mass decimal_places) o names ∧
  reads_on_first_use (appMass2element_list mass decimal_places) o names ∧
  reads_on_first_use (appMass2name_list mass decimal_places) o names.
Proof.
  intros _.
  unfold name2mass_list, name2first_mass, name2composition_list,
    name2first_composition, name2id_list, name2first_id,
    name2specificity_list, id2mass_list, id2first_mass, id2composition_list,
    id2first_composition, id2name_list, id2first_name, mass2name_list,
    mass2id_list, mass2composition_list, composition2name_list,
    composition2id_list, composition2mass, appMass2id_list,
    appMass2element_list, appMass2name_list, get_list, get_first,
    getitem_list, _appMass2whatever.
  split_and!;
    first [ apply mapper_bind_reads_on_first_use
          | apply data_list_bind_reads_on_first_use ].
Qed.

Lemma lookups_read_on_first_use_witness :
  name2first_id "Carbamidomethyl" (unread sample_os [usermod_xml; unimod_xml])
  = Ok (Some "4", with_store sample_os [usermod_xml; unimod_xml]
                    [carbamidomethyl] true)
  ∧ name2first_id "Carbamidomethyl" (unread no_files [usermod_xml; unimod_xml])
    = Raise SystemExit.
Proof.
  split.
  - destruct (lookups_read_on_first_use sample_os [usermod_xml; unimod_xml]
                "Carbamidomethyl" "" (id_str "") 0 2)
      as (_ & _ & _ & _ & _ & Hfirst & _).
    + vm_compute. discriminate.
    + unfold reads_on_first_use in Hfirst. rewrite Hfirst.
      vm_compute. reflexivity.
  - destruct (lookups_read_on_first_use no_files [usermod_xml; unimod_xml]
                "Carbamidomethyl" "" (id_str "") 0 2)
      as (_ & _ & _ & _ & _ & Hfirst & _).
    + vm_compute. discriminate.
    + unfold reads_on_first_use in Hfirst. rewrite Hfirst.
      vm_compute. reflexivity.
Defined.

(** ** The setters *)

Lemma collect_loop_on_store {A} (s : state) l' (f : unimod_data_dict → A)
    (index_list : list nat) (acc : list A) :
  _data_list (self s) = Some l' →
  for_ index_list
    (λ acc index, v ← _data_list_2_value index f; mret (acc ++ [v])) acc s
  = match mapM (λ i, l' !! i) index_list with
    | Some ds => Ok (acc ++ (f <$> ds), s)
    | None => Raise IndexError
    end.
Proof.
  intros Hstore.
  assert (∀ i, _data_list_2_value i f s
               = match l' !! i with
                 | Some d => Ok (f d, s)
                 | None => Raise IndexError
                 end) as Hvalue.
  { intros i. unfold _data_list_2_value, mbind, M_bind, data_list.
    rewrite Hstore. by destruct (l' !! i). }
  revert acc. induction index_list as [|i il IH]; intros acc.
  - simpl. by rewrite app_nil_r.
  - cbn [for_ mapM]. unfold mbind at 1, M_bind at 1.
    unfold mbind at 1, M_bind at 1. rewrite Hvalue.
    destruct (l' !! i) as [d|]; [|done]. cbn [mbind option_bind].
    unfold mret at 1, M_ret at 1. rewrite IH.
    destruct (mapM (λ i, l' !! i) il) as [ds|]; [|done].
    simpl. by rewrite <- app_assoc.
Qed.

(** X9: setting [data_list] does not rebuild the index.  After the store
    of an indexed object is replaced, the index is still the one of the
    old store, and a list lookup reads the new store at the positions of
    the old matches: it raises IndexError as soon as one of them is beyond
    the new store.  Setting [mapper] to [None] afterwards gives the state
    of an object with the new store and no index yet. *)
Theorem data_list_setter_keeps_index
    (o : os) (names : list Path) (l l' : list unimod_data_dict)
    (unimod_name : string) :
  ∃ s1,
    data_list_setter (Some l') (with_store o names l true) = Ok ((), s1) ∧
    data_list s1 = Ok (l', s1) ∧
    mapper s1 = Ok (_initialize_mapper l, s1) ∧
    name2id_list unimod_name s1
    = match mapM (λ i, l' !! i) (positions_of (KStr unimod_name) l) with
      | Some ds => Ok (unimodID <$> ds, s1)
      | None => Raise IndexError
      end ∧
    mapper_setter None s1 = Ok ((), with_store o names l' false).
Proof.
  eexists. split; [reflexivity|]. split_and!; [done..| |done].
  unfold name2id_list, get_list, mbind at 1, M_bind at 1.
  cbn [mapper with_store self _mapper world unimod_xml_names _data_list].
  rewrite dict_get_positions_of.
  destruct (positions_of (KStr unimod_name) l) as [|i il] eqn:Hpos; [done|].
  by apply (collect_loop_on_store _ l' unimodID (i :: il) []).
Qed.

Example lookup_after_data_list_setter :
  match data_list_setter (Some []) (with_store no_files [] sample_store true) with
  | Ok (_, s1) => name2id_list "Oxidation" s1 = Raise IndexError
  | Raise _ => False
  end
  ∧ match data_list_setter (Some [oxidation; acetyl; carbamidomethyl])
            (with_store no_files [] sample_store true) with
    | Ok (_, s1) => ∃ s2, name2id_list "Oxidation" s1 = Ok (["4"], s2)
    | Raise _ => False
    end.
Proof. split; [vm_compute; reflexivity|]. eexists. vm_compute. reflexivity. Qed.

(** ** Missing sources *)

Lemma parse_event_raises st ev e :
  parse_event st ev = Raise e → e = UnboundLocalError.
Proof.
  destruct st as [p collect_element]. unfold parse_event, update_tmp.
  destruct ev; simpl; repeat case_match; simpl; congruence.
Qed.

Lemma parse_events_raises events st e :
  for_ events parse_event st = Raise e → e = UnboundLocalError.
Proof.
  revert st. induction events as [|ev events IH]; intros st; [done|].
  simpl. destruct (parse_event st ev) as [st'|e'] eqn:Hev; simpl.
  - apply IH.
  - intros [= <-]. by eapply parse_event_raises.
Qed.

Lemma parse_file_exits o p xml_file :
  parse_file o p xml_file = Raise SystemExit
  ↔ read_file o xml_file = None ∧ path_name xml_file ≠ "usermod.xml".
Proof.
  unfold parse_file. destruct (read_file o xml_file) as [events|].
  - split; [|by intros [? _]].
    destruct (for_ events parse_event (p, false)) as [st|e] eqn:Hev; [done|].
    simpl. intros [= ->]. by apply parse_events_raises in Hev.
  - destruct (String.eqb_spec (path_name xml_file) "unimod.xml") as [->|_].
    + split; [by intros _|done].
    + destruct (String.eqb_spec (path_name xml_file) "usermod.xml"); split;
        try done; by intros [_ ?].
Qed.

Lemma parse_files_exits o xml_file_list p0 :
  for_ xml_file_list (parse_file o) p0 = Raise SystemExit →
  ∃ before xml_file after p,
    xml_file_list = before ++ xml_file :: after ∧
    for_ before (parse_file o) p0 = Ok p ∧
    read_file o xml_file = None ∧ path_name xml_file ≠ "usermod.xml".
Proof.
  revert p0. induction xml_file_list as [|f fs IH]; intros p0; [done|].
  simpl. destruct (parse_file o p0 f) as [p1|e] eqn:Hf; simpl.
  - intros (before & xml_file & after & p & -> & Hbefore & Hmiss)%IH.
    exists (f :: before), xml_file, after, p. split; [done|].
    split; [|done]. simpl. by rewrite Hf.
  - intros [= ->]. apply parse_file_exits in Hf.
    by exists [], f, fs, p0.
Qed.

Lemma deref_raises p refs e :
  mapM (deref p) refs = Raise e → e = MissingDelta ∨ e = IndexError.
Proof.
  induction refs as [|r refs IH]; [done|]. cbn [mapM].
  destruct (deref p r) as [d|e'] eqn:Hr; cbn [mbind result_bind].
  - destruct (mapM (deref p) refs) as [ds|e'']; [done|].
    cbn [mbind result_bind]. intros [= <-]. by apply IH.
  - intros [= <-]. unfold deref, to_data in Hr.
    repeat case_match; try done; injection Hr as <-; auto.
Qed.

(** X10: [_parseXML] ends the process (SystemExit) exactly when it gets,
    after sources that parse, to a source that does not exist and is not
    named usermod.xml; a missing source named usermod.xml is passed over,
    the result being that of the list without it. *)
Theorem _parseXML_missing_sources (o : os) (xml_file_list : list Path) :
  (_parseXML o xml_file_list = Raise SystemExit ↔
   ∃ before xml_file after p,
     xml_file_list = before ++ xml_file :: after ∧
     parse_files o before = Ok p ∧
     read_file o xml_file = None ∧ path_name xml_file ≠ "usermod.xml") ∧
  (∀ before xml_file after,
     xml_file_list = before ++ xml_file :: after →
     read_file o xml_file = None → path_name xml_file = "usermod.xml" →
     _parseXML o xml_file_list = _parseXML o (before ++ after)).
Proof.
  split.
  - unfold _parseXML, parse_files. split.
    + destruct (for_ xml_file_list (parse_file o) new_parser) as [p|e] eqn:Hp.
      * cbn [mbind result_bind]. intros [?|?]%deref_raises; done.
      * cbn [mbind result_bind]. intros [= ->]. by apply parse_files_exits.
    + intros (before & xml_file & after & p & -> & Hbefore & Hmiss).
      rewrite for_result_app, Hbefore. cbn [mbind result_bind for_].
      by rewrite (proj2 (parse_file_exits o p xml_file) Hmiss).
  - intros before xml_file after -> Hread Hname.
    unfold _parseXML, parse_files. rewrite !for_result_app.
    destruct (for_ before (parse_file o) new_parser) as [p|e]; [|done].
    assert (parse_file o p xml_file = Ok p) as Hskip.
    { unfold parse_file. by rewrite Hread, Hname. }
    cbn [mbind result_bind for_]. by rewrite Hskip.
Qed.

Lemma _parseXML_missing_sources_witness :
  _parseXML sample_os [usermod_xml; unimod_xml]
  = _parseXML sample_os [unimod_xml].
Proof.
  destruct (_parseXML_missing_sources sample_os [usermod_xml; unimod_xml])
    as [_ Hskip].
  apply (Hskip [] usermod_xml [unimod_xml]); vm_compute; reflexivity.
Defined.

(** ** What the parser keeps of a source *)

Section parser_invariant.
Variable P : tmp_dict → Prop.
Hypothesis P_new : ∀ unimodid title, P (mk_tmp unimodid title ∅ [] None).
Hypothesis P_mono_mass : ∀ m t, P t → P (set_mono_mass m t).
Hypothesis P_element :
  ∀ symbol number t, number ≠ 0%Z → P t → P (set_element symbol number t).
Hypothesis P_specificity :
  ∀ site classification t,
    classification ≠ "Artefact" →
    P t → P (append_specificity (site, classification) t).

Lemma parse_event_invariant st ev st' :
  parse_event st ev = Ok st' →
  Forall P (objects st.1) → Forall P (objects st'.1).
Proof using P_new P_mono_mass P_element P_specificity.
  destruct st as [p collect_element]. unfold parse_event.
  destruct ev as [record_id title|m|symbol number|site classification| | | |];
    simpl.
  - intros [= <-] Hall. simpl. apply Forall_app. split; [done|].
    constructor; [apply P_new|constructor].
  - intros (p' & Hp & [= <-])%result_bind_Ok. simpl.
    apply (update_tmp_Forall _ (set_mono_mass m) p p'); [|done].
    apply P_mono_mass.
  - destruct collect_element; [|by intros [= <-]].
    case_bool_decide as Hnumber; [|by intros [= <-]].
    intros (p' & Hp & [= <-])%result_bind_Ok. simpl.
    apply (update_tmp_Forall _ (set_element symbol number) p p'); [|done].
    intros t. by apply P_element.
  - case_bool_decide as Hclass; [|by intros [= <-]].
    intros (p' & Hp & [= <-])%result_bind_Ok. simpl.
    apply (update_tmp_Forall _ (append_specificity (site, classification)) p p');
      [|done].
    intros t. by apply P_specificity.
  - by intros [= <-].
  - destruct (tmp p); [|done]. by intros [= <-].
  - by intros [= <-].
  - by intros [= <-].
Qed.

Lemma parse_events_invariant events st st' :
  for_ events parse_event st = Ok st' →
  Forall P (objects st.1) → Forall P (objects st'.1).
Proof using P_new P_mono_mass P_element P_specificity.
  revert st. induction events as [|ev events IH]; intros st; simpl.
  - by intros [= <-].
  - intros (st1 & Hev & Hrest)%result_bind_Ok Hall.
    eapply IH; [done|]. by eapply parse_event_invariant.
Qed.

Lemma parse_files_invariant o xml_file_list p p' :
  for_ xml_file_list (parse_file o) p = Ok p' →
  Forall P (objects p) → Forall P (objects p').
Proof using P_new P_mono_mass P_element P_specificity.
  revert p. induction xml_file_list as [|f fs IH]; intros p; simpl.
  - by intros [= <-].
  - intros (p1 & Hf & Hrest)%result_bind_Ok Hall.
    eapply IH; [done|]. unfold parse_file in Hf.
    destruct (read_file o f) as [events|].
    + apply result_bind_Ok in Hf as (st & Hst & [= <-]).
      by apply (parse_events_invariant _ _ _ Hst).
    + destruct (String.eqb _ "unimod.xml"); [done|].
      destruct (String.eqb _ "usermod.xml"); [|done]. by injection Hf as <-.
Qed.

Lemma _parseXML_invariant o xml_file_list data_list d :
  _parseXML o xml_file_list = Ok data_list → d ∈ data_list →
  ∃ t, P t ∧ to_data t = Ok d.
Proof using P_new P_mono_mass P_element P_specificity.
  unfold _parseXML, parse_files.
  intros (p & Hp & Hmap%mapM_result_Ok)%result_bind_Ok Hd.
  apply parse_files_invariant in Hp; [|constructor].
  apply list_elem_of_lookup in Hd as [i Hi].
  destruct (Forall2_lookup_r _ _ _ _ _ Hmap Hi) as (r & _ & Hr).
  unfold deref in Hr. destruct (objects p !! r) as [t|] eqn:Ht; [|done].
  exists t. split; [|done].
  rewrite Forall_forall in Hp. apply Hp. by eapply list_elem_of_lookup_2.
Qed.
End parser_invariant.

(** X11: no record of a parsed store has a specificity that is classified
    as Artefact. *)
Theorem _parseXML_leaves_out_artefacts
    (o : os) (xml_file_list : list Path) (data_list : list unimod_data_dict)
    (d : unimod_data_dict) (site : string) :
  _parseXML o xml_file_list = Ok data_list → d ∈ data_list →
  (site, "Artefact") ∉ specificity d.
Proof.
  intros Hparse Hd.
  destruct (_parseXML_invariant
              (λ t, ∀ site, (site, "Artefact") ∉ tmp_specificity t))
    with (o := o) (xml_file_list := xml_file_list) (data_list := data_list)
         (d := d) as (t & Ht & Hdata); try done.
  - intros _ _ site' ?%elem_of_nil. done.
  - intros site' classification t Hclass Ht site''. simpl.
    rewrite elem_of_app, list_elem_of_singleton. intros [Hin|[= _ <-]]; [|done].
    by apply Ht in Hin.
  - unfold to_data in Hdata. destruct (tmp_mono_mass t); [|done].
    injection Hdata as <-. apply Ht.
Qed.

Lemma _parseXML_leaves_out_artefacts_witness :
  ("U", "Artefact") ∉ specificity carbamidomethyl.
Proof.
  apply (_parseXML_leaves_out_artefacts sample_os [usermod_xml; unimod_xml]
           [carbamidomethyl] carbamidomethyl "U").
  - vm_compute. reflexivity.
  - left.
Defined.

(** ** One record for each mod *)

Lemma parse_event_refs st ev st' :
  parse_event st ev = Ok st' →
  length (data_list_refs st'.1)
  = length (data_list_refs st.1) + (if is_end_mod ev then 1 else 0).
Proof.
  destruct st as [p collect_element]. unfold parse_event, update_tmp.
  destruct ev; simpl; repeat case_match; simpl; try done;
    intros [= <-]; simpl; rewrite ?length_app; simpl; lia.
Qed.

Lemma parse_events_refs events st st' :
  for_ events parse_event st = Ok st' →
  length (data_list_refs st'.1)
  = length (data_list_refs st.1) + count_end_mod events.
Proof.
  unfold count_end_mod.
  revert st. induction events as [|ev events IH]; intros st; simpl.
  - intros [= <-]. lia.
  - intros (st1 & Hev & Hrest)%result_bind_Ok.
    rewrite (IH _ Hrest), (parse_event_refs _ _ _ Hev), filter_cons.
    destruct (is_end_mod ev); simpl; lia.
Qed.

Lemma parse_files_refs o xml_file_list p p' :
  for_ xml_file_list (parse_file o) p = Ok p' →
  length (data_list_refs p')
  = length (data_list_refs p) + count_end_mod (events_read o xml_file_list).
Proof.
  unfold count_end_mod, events_read.
  revert p. induction xml_file_list as [|f fs IH]; intros p; simpl.
  - intros [= <-]. lia.
  - intros (p1 & Hf & Hrest)%result_bind_Ok.
    rewrite (IH _ Hrest), filter_app, length_app. unfold parse_file in Hf.
    destruct (read_file o f) as [events|]; simpl.
    + apply result_bind_Ok in Hf as (st & Hst & [= <-]).
      apply parse_events_refs in Hst. unfold count_end_mod in Hst.
      simpl in Hst. lia.
    + destruct (String.eqb _ "unimod.xml"); [done|].
      destruct (String.eqb _ "usermod.xml"); [|done]. injection Hf as <-. lia.
Qed.

(** X12: a parsed store has one record for each end of a mod element in
    the sources that exist, a source that is listed twice counting
    twice. *)
Theorem _parseXML_one_record_per_mod
    (o : os) (xml_file_list : list Path) (data_list : list unimod_data_dict) :
  _parseXML o xml_file_list = Ok data_list →
  length data_list = count_end_mod (events_read o xml_file_list).
Proof.
  unfold _parseXML, parse_files.
  intros (p & Hp & Hmap%mapM_result_Ok)%result_bind_Ok.
  apply parse_files_refs in Hp. apply Forall2_length in Hmap.
  simpl in Hp. lia.
Qed.

Lemma _parseXML_one_record_per_mod_witness :
  length [carbamidomethyl; carbamidomethyl]
  = count_end_mod
      (events_read sample_os [usermod_xml; unimod_xml; unimod_xml]).
Proof.
  apply (_parseXML_one_record_per_mod sample_os
           [usermod_xml; unimod_xml; unimod_xml]).
  vm_compute. reflexivity.
Defined.

(** ** The overlay file after [writeXML] *)

Lemma reparseXML_Ok xml_file_list s s' :
  _reparseXML xml_file_list s = Ok ((), s') →
  ∃ l, _parseXML (world s) xml_file_list = Ok l ∧
       s' = with_store (world s) (unimod_xml_names (self s)) l true.
Proof.
  unfold _reparseXML.
  destruct (_parseXML (world s) xml_file_list) as [l|e]; [|done].
  cbn [mbind result_bind]. intros [= <-]. by exists l.
Qed.

Lemma writeXML_Ok o names stale_store stale_index md xml_file s' :
  let xf := default (truediv (here o) (mk_path false ["usermod.xml"])) xml_file in
  writeXML md xml_file (mk_state o (mk_self names stale_store stale_index))
  = Ok ((), s') →
  ∃ olds events l,
    (read_file o xf = None ∧ olds = []
     ∨ is_Some (read_file o xf) ∧ _parseXML o [xf] = Ok olds) ∧
    usermod_events ((to_mod_dict <$> olds) ++ [md]) = Ok events ∧
    s' = with_store (write_file o xf events) names l true.
Proof.
  intros xf. unfold writeXML. cbn [world self unimod_xml_names].
  change (match xml_file with
          | Some f => f
          | None => truediv (here o) (mk_path false ["usermod.xml"])
          end) with xf.
  destruct (read_file o xf) as [events0|] eqn:Hread.
  - destruct (_parseXML o [xf]) as [olds|e] eqn:Holds; [|done].
    cbn [mbind result_bind]. rewrite foldl_insert_before_last.
    destruct (usermod_events ((to_mod_dict <$> olds) ++ [md]))
      as [events|e] eqn:Hevents; [|done].
    cbn [mbind result_bind].
    intros (l & _ & ->)%reparseXML_Ok. exists olds, events, l.
    split_and!; [|done..]. right. split; [by eexists|done].
  - cbn [mbind result_bind].
    destruct (usermod_events [md]) as [events|e] eqn:Hevents; [|done].
    cbn [mbind result_bind].
    intros (l & _ & ->)%reparseXML_Ok. exists [], events, l.
    split_and!; [|done..]. by left.
Qed.

Lemma written_record_to_mod_dict len d :
  nonzero_counts (element d) →
  written_record len (to_mod_dict d) = forget_specificity d.
Proof.
  intros Hnonzero. unfold written_record, to_mod_dict, forget_specificity.
  simpl. by rewrite without_zero_counts_id.
Qed.

(** X13: when the names, ids and element symbols of the entries written
    (the entries the overlay file holds already, and the new one) read
    back as written, then after [writeXML] has returned the overlay file
    by itself parses into the records it held before, in their order and
    with their ids, names, masses and compositions but without their
    specificities, followed by the record of the new entry, whose id is
    the id given or "u" and the number of entries of the file. *)
Theorem writeXML_overlay_file_reads_back
    (o : os) (names : list Path)
    (stale_store : option (list unimod_data_dict)) (stale_index : option dict)
    (md : modification_dict) (xml_file : option Path)
    (olds : list unimod_data_dict) (s' : state) :
  let xf := default (truediv (here o) (mk_path false ["usermod.xml"])) xml_file in
  (read_file o xf = None ∧ olds = []
   ∨ is_Some (read_file o xf) ∧ _parseXML o [xf] = Ok olds) →
  forallb entry_reads_back_as_written ((to_mod_dict <$> olds) ++ [md]) = true →
  writeXML md xml_file (mk_state o (mk_self names stale_store stale_index))
  = Ok ((), s') →
  _parseXML (world s') [xf]
  = Ok ((forget_specificity <$> olds)
        ++ [written_record (S (length olds)) md]).
Proof.
  intros xf Hold Hplain (olds' & events & l & Hold' & Hevents & ->)%writeXML_Ok.
  assert (olds' = olds) as ->.
  { unfold xf in *.
    destruct Hold as [[Hnone ->]|[[events0 Hsome] Holds]],
      Hold' as [[Hnone' ->]|[[events0' Hsome'] Holds']];
      [done|congruence..]. }
  rewrite (usermod_events_plain _ Hplain) in Hevents. injection Hevents as <-.
  assert ((to_mod_dict <$> olds) ++ [md] ≠ []) as Hne.
  { by destruct (to_mod_dict <$> olds). }
  cbn [with_store world].
  etrans; [exact (_parseXML_after_write o xf _ [] new_parser [] Hne
                    eq_refl eq_refl)|].
  cbn [app]. rewrite length_app, length_fmap, Nat.add_1_r, fmap_app, <- list_fmap_compose.
  simpl. f_equal. f_equal.
  apply list_fmap_ext. intros i d Hd. simpl.
  apply written_record_to_mod_dict.
  destruct Hold as [[_ ->]|[_ Holds]]; [done|].
  eapply _parseXML_nonzero; [done|]. by eapply list_elem_of_lookup_2.
Qed.

Lemma writeXML_overlay_file_reads_back_witness :
  ∃ s', writeXML sample_mod None sample_state = Ok ((), s') ∧
        _parseXML (world s') [usermod_xml]
        = Ok [written_record 1 sample_mod].
Proof.
  eexists. split; [vm_compute; reflexivity|].
  apply (writeXML_overlay_file_reads_back sample_os
           [usermod_xml; unimod_xml] None None sample_mod None []).
  - left. split; vm_compute; reflexivity.
  - vm_compute. reflexivity.
  - vm_compute. reflexivity.
Defined.

(** X14: [writeXML] writes the overlay file and nothing else: when it has
    returned, every other file is what it was, and so are the working
    directory, the directory of the module and the sources of the
    object. *)
Theorem writeXML_writes_only_the_overlay
    (o : os) (names : list Path)
    (stale_store : option (list unimod_data_dict)) (stale_index : option dict)
    (md : modification_dict) (xml_file : option Path) (s' : state) :
  let xf := default (truediv (here o) (mk_path false ["usermod.xml"])) xml_file in
  writeXML md xml_file (mk_state o (mk_self names stale_store stale_index))
  = Ok ((), s') →
  unimod_xml_names (self s') = names ∧
  cwd (world s') = cwd o ∧ here (world s') = here o ∧
  ∀ xml_path, resolve o xml_path ≠ resolve o xf →
              read_file (world s') xml_path = read_file o xml_path.
Proof.
  intros xf (olds & events & l & _ & _ & ->)%writeXML_Ok. split_and!; [done..|].
  intros xml_path Hne. unfold read_file, write_file, resolve in *. simpl.
  by rewrite lookup_insert_ne.
Qed.

Lemma writeXML_writes_only_the_overlay_witness :
  ∃ s', writeXML sample_mod None sample_state = Ok ((), s') ∧
        read_file (world s') unimod_xml = Some sample_events.
Proof.
  eexists. split; [vm_compute; reflexivity|].
  edestruct (writeXML_writes_only_the_overlay sample_os
               [usermod_xml; unimod_xml] None None sample_mod None)
    as (_ & _ & _ & Hfiles).
  - vm_compute. reflexivity.
  - rewrite (Hfiles unimod_xml); [vm_compute; reflexivity|].
    vm_compute. discriminate.
Defined.

(** ** The sources of a new object *)

Lemma path_name_module_file o xml : path_name (module_file o xml) = xml.
Proof.
  unfold module_file, truediv, path_name. simpl. by rewrite last_snoc.
Qed.

Lemma __init___names refresh_xml xml_file_list response o :
  let given := default [] xml_file_list in
  unimod_xml_names (self (__init__ refresh_xml xml_file_list response o))
  = given
    ++ (if bool_decide ("usermod.xml" ∈ path_name <$> given) then []
        else [module_file o "usermod.xml"])
    ++ (if bool_decide ("unimod.xml" ∈ path_name <$> given) then []
        else [module_file o "unimod.xml"]).
Proof.
  intros given. unfold __init__. fold given. cbn [self unimod_xml_names foldl].
  assert (∀ o' : os, here o' = here o →
    (if bool_decide ("unimod.xml" ∈ path_name <$> given)
     then if bool_decide ("usermod.xml" ∈ path_name <$> given) then given
          else given ++ [truediv (here o') (mk_path false ["usermod.xml"])]
     else (if bool_decide ("usermod.xml" ∈ path_name <$> given) then given
           else given ++ [truediv (here o') (mk_path false ["usermod.xml"])])
          ++ [truediv (here o') (mk_path false ["unimod.xml"])])
    = given
      ++ (if bool_decide ("usermod.xml" ∈ path_name <$> given) then []
          else [module_file o "usermod.xml"])
      ++ (if bool_decide ("unimod.xml" ∈ path_name <$> given) then []
          else [module_file o "unimod.xml"])) as Hnames.
  { intros o' ->. unfold module_file.
    repeat case_bool_decide; by rewrite ?app_nil_r, <- ?app_assoc. }
  apply Hnames. by repeat case_match.
Qed.

Lemma __init___unimod_exists refresh_xml xml_file_list response o :
  is_Some (read_file (world (__init__ refresh_xml xml_file_list response o))
             (module_file o "unimod.xml")).
Proof.
  unfold __init__, module_file. cbn [world].
  destruct (read_file o (truediv (here o) (mk_path false ["unimod.xml"])))
    as [events|] eqn:Hread.
  - destruct refresh_xml; [|by rewrite Hread].
    unfold read_file, write_file, resolve. simpl. rewrite lookup_insert_eq.
    by eexists.
  - unfold read_file, write_file, resolve. simpl. rewrite lookup_insert_eq.
    by eexists.
Qed.

(** X15: a new object keeps the files it is given, in their order, and
    adds after them the module's usermod.xml and then the module's
    unimod.xml, each only when no given file has that name; so both names
    are among its sources.  The module's unimod.xml exists once the object
    is made, and nothing has been read yet. *)
Theorem new_object_sources
    (refresh_xml : bool) (xml_file_list : option (list Path))
    (response : list xml_event) (o : os) :
  let s := __init__ refresh_xml xml_file_list response o in
  let given := default [] xml_file_list in
  unimod_xml_names (self s)
  = given
    ++ (if bool_decide ("usermod.xml" ∈ path_name <$> given) then []
        else [module_file o "usermod.xml"])
    ++ (if bool_decide ("unimod.xml" ∈ path_name <$> given) then []
        else [module_file o "unimod.xml"]) ∧
  (∀ xml, xml ∈ ["usermod.xml"; "unimod.xml"] →
          xml ∈ path_name <$> unimod_xml_names (self s)) ∧
  is_Some (read_file (world s) (module_file o "unimod.xml")) ∧
  _data_list (self s) = None ∧ _mapper (self s) = None.
Proof.
  intros s given. split_and!; [apply __init___names| |
    apply __init___unimod_exists|done..].
  intros xml Hxml. unfold s. rewrite __init___names. fold given.
  rewrite !fmap_app, !elem_of_app.
  apply elem_of_cons in Hxml as [->|Hxml].
  - case_bool_decide as Hin; [by left|]. right. left.
    rewrite list_fmap_singleton, path_name_module_file. apply list_elem_of_here.
  - apply list_elem_of_singleton in Hxml as ->.
    destruct (decide ("unimod.xml" ∈ path_name <$> given)) as [Hin|Hin];
      [by left|].
    right. right. rewrite (bool_decide_eq_false_2 _ Hin).
    rewrite list_fmap_singleton, path_name_module_file. apply list_elem_of_here.
Qed.

(** X16: the sources a new object adds by itself never end the process:
    when reading the sources of a new object ends in SystemExit, one of
    the files given to the constructor does not exist and is not named
    usermod.xml. *)
Theorem new_object_exits_only_for_a_given_file
    (refresh_xml : bool) (xml_file_list : option (list Path))
    (response : list xml_event) (o : os) :
  let s := __init__ refresh_xml xml_file_list response o in
  _parseXML (world s) (unimod_xml_names (self s)) = Raise SystemExit →
  ∃ xml_file, xml_file ∈ default [] xml_file_list ∧
              read_file (world s) xml_file = None ∧
              path_name xml_file ≠ "usermod.xml".
Proof.
  intros s Hexit.
  assert (∃ before xml_file after p,
            unimod_xml_names (self s) = before ++ xml_file :: after ∧
            parse_files (world s) before = Ok p ∧
            read_file (world s) xml_file = None ∧
            path_name xml_file ≠ "usermod.xml")
    as (before & xml_file & after & p & Hnames & _ & Hread & Hname).
  { unfold _parseXML, parse_files in *.
    destruct (for_ (unimod_xml_names (self s)) (parse_file (world s)) new_parser)
      as [p|e] eqn:Hp.
    - cbn [mbind result_bind] in Hexit.
      by apply deref_raises in Hexit as [?|?].
    - cbn [mbind result_bind] in Hexit. injection Hexit as ->.
      by apply parse_files_exits. }
  exists xml_file. split; [|done].
  assert (xml_file ∈ unimod_xml_names (self s)) as Hin.
  { rewrite Hnames. apply elem_of_app. right. apply list_elem_of_here. }
  unfold s in Hin. rewrite __init___names in Hin.
  apply elem_of_app in Hin as [Hin|Hin]; [done|].
  apply elem_of_app in Hin as [Hin|Hin]; case_bool_decide;
    try by apply elem_of_nil in Hin.
  - apply list_elem_of_singleton in Hin as ->.
    by rewrite path_name_module_file in Hname.
  - apply list_elem_of_singleton in Hin as ->.
    pose proof (__init___unimod_exists refresh_xml xml_file_list response o)
      as [events Hsome].
    fold s in Hsome. by rewrite Hsome in Hread.
Qed.

Lemma new_object_exits_only_for_a_given_file_witness :
  ∃ xml_file,
    xml_file ∈ [nowhere_xml] ∧
    read_file (world (__init__ false (Some [nowhere_xml]) [] sample_os))
      xml_file = None ∧
    path_name xml_file ≠ "usermod.xml".
Proof.
  apply (new_object_exits_only_for_a_given_file false (Some [nowhere_xml]) []
           sample_os).
  vm_compute. reflexivity.
Defined.

